(** * VSoC shared-memory layout planner and socket-forward proxy

    A shallow embedding of
    - [common/vsoc/lib/vsoc_memory.cpp] (region layout planner), and
    - [common/frontend/socket_forward_proxy/main.cpp] (socket forwarding),
    together with the properties that the design document states about
    them.

    Conventions.
    - [uint32_t] values are integers in [0, 2^32); every arithmetic step
      that the source performs on a [uint32_t] is followed by [wrap32].
    - [size_t] values are at least 32 bits wide.  Every [size_t] the
      planner handles is narrowed to [uint32_t] before it is stored or
      compared, so only the narrowing is visible.
    - [LOG(FATAL)] aborts the process; a loop that cannot exit never
      returns.  Both are outcomes of the embedded functions. *)

From Stdlib Require Import ZArith Lia List Bool.
From stdpp Require Import gmap list strings.

Local Open Scope Z_scope.

(** ** Machine integers *)

Definition wrap32 (z : Z) : Z := z mod 2 ^ 32.

Definition is_uint32 (z : Z) : Prop := 0 <= z < 2 ^ 32.

(** ** Outcomes of the embedded functions *)

Inductive failure : Type :=
| LogFatal      (* LOG(FATAL): the process aborts *)
| OutOfRange    (* std::map::at on an absent key throws *)
| BadIndex      (* vector subscript past the end: undefined behaviour *)
| NoReturn.     (* the call never returns *)

Inductive outcome (A : Type) : Type :=
| Done (a : A)
| Stop (f : failure).

Arguments Done {A} a.
Arguments Stop {A} f.

#[global] Instance outcome_ret : MRet outcome := fun A a => Done a.

#[global] Instance outcome_bind : MBind outcome := fun A B k m =>
  match m with
  | Done a => k a
  | Stop f => Stop f
  end.

(** ** Values that the sources take from headers outside this file *)

Record platform : Type := Platform {
  page_size : Z;                          (* sysconf(_SC_PAGESIZE) *)
  sizeof_vsoc_shm_layout_descriptor : Z;  (* sizeof(vsoc_shm_layout_descriptor) *)
  sizeof_vsoc_device_region : Z;          (* sizeof(vsoc_device_region) *)
  VSOC_DEVICE_NAME_SZ : nat;
  VSOC_REGION_WHOLE : Z;
  CURRENT_VSOC_LAYOUT_MINOR_VERSION : Z
}.

(** The major version is pinned to 2 by the [static_assert] of
    [WriteLayout]. *)
Definition CURRENT_VSOC_LAYOUT_MAJOR_VERSION : Z := 2.

(** [sizeof(uint32_t)] *)
Definition sizeof_uint32 : Z := 4.

(** ** Alignment helpers (anonymous namespace of vsoc_memory.cpp) *)

(** [((val + (page_size - 1)) / page_size) * page_size], in [uint32_t]. *)
Definition AlignToPageSize (P : platform) (val : Z) : Z :=
  wrap32 (wrap32 (wrap32 (val + wrap32 (page_size P - 1)) / page_size P)
          * page_size P).

(** The loop [while (power_of_2 < val) power_of_2 *= 2;].  [fuel] bounds
    the number of times the loop condition is evaluated; [None] means
    that the loop is still running when the fuel is spent. *)
Fixpoint AlignToPowerOf2_loop (fuel : nat) (power_of_2 val : Z) : option Z :=
  match fuel with
  | O => None
  | S fuel' =>
      if power_of_2 <? val
      then AlignToPowerOf2_loop fuel' (wrap32 (power_of_2 * 2)) val
      else Some power_of_2
  end.

(** A [uint32_t] variable that doubles from 1 takes at most 33 distinct
    values (1, 2, ..., 2^31, 0), after which it stays 0: 34 evaluations of
    the condition decide whether the loop exits
    (see [AlignToPowerOf2_fuel_irrelevant]). *)
Definition AlignToPowerOf2 (val : Z) : option Z :=
  AlignToPowerOf2_loop 34 1 val.

(** ** Regions *)

(** A [const char*]: the address is what [std::map<const char*, size_t>]
    compares, the characters are what [strncpy] copies. *)
Record c_str : Type := CStr {
  c_addr : Z;
  c_chars : string
}.

Record VSoCRegionLayoutImpl : Type := Region {
  region_name_ : c_str;
  layout_size_ : Z;
  guest_to_host_signal_table_log_size_ : Z;
  host_to_guest_signal_table_log_size_ : Z;
  managed_by_ : option c_str;     (* [None] is [nullptr] *)
  begin_offset_ : Z;
  size_ : Z
}.

Definition SetRegionSize (r : VSoCRegionLayoutImpl) (size : Z) : VSoCRegionLayoutImpl :=
  {| region_name_ := region_name_ r;
     layout_size_ := layout_size_ r;
     guest_to_host_signal_table_log_size_ := guest_to_host_signal_table_log_size_ r;
     host_to_guest_signal_table_log_size_ := host_to_guest_signal_table_log_size_ r;
     managed_by_ := managed_by_ r;
     begin_offset_ := begin_offset_ r;
     size_ := size |}.

Definition SetBeginOffset (r : VSoCRegionLayoutImpl) (offset : Z) : VSoCRegionLayoutImpl :=
  {| region_name_ := region_name_ r;
     layout_size_ := layout_size_ r;
     guest_to_host_signal_table_log_size_ := guest_to_host_signal_table_log_size_ r;
     host_to_guest_signal_table_log_size_ := host_to_guest_signal_table_log_size_ r;
     managed_by_ := managed_by_ r;
     begin_offset_ := offset;
     size_ := size_ r |}.

(** [1 << log_size] on [int]; the source only uses log sizes in [0, 30],
    where the shift is defined and positive. *)
Definition shl1 (log_size : Z) : Z := Z.shiftl 1 log_size.

Definition GetOffsetOfRegionData (r : VSoCRegionLayoutImpl) : Z :=
  let offset := 0 in
  let offset := wrap32 (offset + shl1 (guest_to_host_signal_table_log_size_ r) * sizeof_uint32) in
  let offset := wrap32 (offset + shl1 (host_to_guest_signal_table_log_size_ r) * sizeof_uint32) in
  let offset := wrap32 (offset + 2 * sizeof_uint32) in
  offset.

(** [auto size] is a [uint32_t] here, so the sum with [layout_size_]
    is narrowed before it is aligned. *)
Definition GetMinRegionSize (P : platform) (r : VSoCRegionLayoutImpl) : Z :=
  let size := GetOffsetOfRegionData r in
  let size := wrap32 (size + layout_size_ r) in
  let size := AlignToPageSize P size in
  size.

(** The constructor of [VSoCRegionLayoutImpl]: [begin_offset_] is
    value-initialised, [size_] is the minimum region size. *)
Definition new_VSoCRegionLayoutImpl (P : platform) (region_name : c_str) (layout_size : Z)
    (guest_to_host_signal_table_log_size host_to_guest_signal_table_log_size : Z)
    (managed_by : option c_str) : VSoCRegionLayoutImpl :=
  let r := {| region_name_ := region_name;
              layout_size_ := layout_size;
              guest_to_host_signal_table_log_size_ := guest_to_host_signal_table_log_size;
              host_to_guest_signal_table_log_size_ := host_to_guest_signal_table_log_size;
              managed_by_ := managed_by;
              begin_offset_ := 0;
              size_ := 0 |} in
  SetRegionSize r (GetMinRegionSize P r).

(** ** The memory layout *)

Record VSoCMemoryLayoutImpl : Type := Layout {
  regions_ : list VSoCRegionLayoutImpl;
  region_idx_by_name_ : gmap Z nat;     (* keyed by the name's address *)
  device_size_ : Z
}.

(** [GetNameToIndexMap]: a name that is already in the map is fatal. *)
Fixpoint GetNameToIndexMap_from (index : nat) (regions : list VSoCRegionLayoutImpl)
    (result : gmap Z nat) : outcome (gmap Z nat) :=
  match regions with
  | [] => Done result
  | region :: rest =>
      let region_name := region_name_ region in
      match result !! c_addr region_name with
      | Some _ => Stop LogFatal
      | None => GetNameToIndexMap_from (S index) rest (<[c_addr region_name := index]> result)
      end
  end.

Definition GetNameToIndexMap (regions : list VSoCRegionLayoutImpl) : outcome (gmap Z nat) :=
  GetNameToIndexMap_from 0%nat regions ∅.

(** The first loop of the constructor: a non-null [managed_by] that
    [region_idx_by_name_] does not count is fatal. *)
Fixpoint check_managed_by (region_idx_by_name : gmap Z nat)
    (regions : list VSoCRegionLayoutImpl) : outcome unit :=
  match regions with
  | [] => Done tt
  | region :: rest =>
      match managed_by_ region with
      | Some manager =>
          match region_idx_by_name !! c_addr manager with
          | None => Stop LogFatal
          | Some _ => check_managed_by region_idx_by_name rest
          end
      | None => check_managed_by region_idx_by_name rest
      end
  end.

(** The [for] loop of [UpdateRegionOffsetsAndDeviceSize].  [steps] counts
    loop iterations; the loop leaves as soon as [index] reaches the size
    of the vector, so [length regions] steps are always enough. *)
Fixpoint UpdateRegionOffsets_loop (steps : nat) (regions : list VSoCRegionLayoutImpl)
    (offset : Z) (index : nat) : list VSoCRegionLayoutImpl * Z :=
  match steps with
  | O => (regions, offset)
  | S steps' =>
      match regions !! index with
      | None => (regions, offset)
      | Some region =>
          UpdateRegionOffsets_loop steps'
            (<[index := SetBeginOffset region offset]> regions)
            (wrap32 (offset + size_ region))
            (S index)
      end
  end.

Definition UpdateRegionOffsetsAndDeviceSize (l : VSoCMemoryLayoutImpl) (offset : Z)
    (index : nat) : outcome VSoCMemoryLayoutImpl :=
  let '(regions, offset) :=
    UpdateRegionOffsets_loop (length (regions_ l)) (regions_ l) offset index in
  match AlignToPowerOf2 offset with
  | None => Stop NoReturn
  | Some device_size =>
      Done {| regions_ := regions;
              region_idx_by_name_ := region_idx_by_name_ l;
              device_size_ := device_size |}
  end.

(** The offset at which the first region starts. *)
Definition first_region_offset (P : platform) (region_count : nat) : Z :=
  let offset := 0 in
  let offset := wrap32 (offset + sizeof_vsoc_shm_layout_descriptor P) in
  let offset := wrap32 (offset + Z.of_nat region_count * sizeof_vsoc_device_region P) in
  AlignToPageSize P offset.

(** The constructor [VSoCMemoryLayoutImpl(std::vector<VSoCRegionLayoutImpl>&&)]. *)
Definition new_VSoCMemoryLayoutImpl (P : platform)
    (regions : list VSoCRegionLayoutImpl) : outcome VSoCMemoryLayoutImpl :=
  region_idx_by_name ← GetNameToIndexMap regions;
  _ ← check_managed_by region_idx_by_name regions;
  let offset := first_region_offset P (length regions) in
  UpdateRegionOffsetsAndDeviceSize
    {| regions_ := regions;
       region_idx_by_name_ := region_idx_by_name;
       device_size_ := 0 |}
    offset 0.

Definition GetMemoryFileSize (l : VSoCMemoryLayoutImpl) : Z := device_size_ l.

Definition GetRegionByName (l : VSoCMemoryLayoutImpl) (region_name : c_str)
    : option VSoCRegionLayoutImpl :=
  match region_idx_by_name_ l !! c_addr region_name with
  | None => None
  | Some index => regions_ l !! index
  end.

(** [ResizeRegion]: the result pairs the returned [bool] with the layout
    as the call leaves it. *)
Definition ResizeRegion (P : platform) (l : VSoCMemoryLayoutImpl) (region_name : c_str)
    (new_min_size : Z) : outcome (bool * VSoCMemoryLayoutImpl) :=
  match region_idx_by_name_ l !! c_addr region_name with
  | None => Done (false, l)
  | Some index =>
      match regions_ l !! index with
      | None => Stop BadIndex
      | Some region =>
          let min_required_size := GetMinRegionSize P region in
          let new_min_size := AlignToPageSize P (wrap32 new_min_size) in
          if new_min_size <? min_required_size then Done (false, l)
          else
            let region := SetRegionSize region new_min_size in
            let l := {| regions_ := <[index := region]> (regions_ l);
                        region_idx_by_name_ := region_idx_by_name_ l;
                        device_size_ := device_size_ l |} in
            let offset := begin_offset_ region + size_ region in
            l ← UpdateRegionOffsetsAndDeviceSize l (wrap32 offset) (index + 1);
            Done (true, l)
      end
  end.

(** ** Serialisation *)

(** Modelled from the spec: the declarations of [vsoc_signal_table_layout],
    [vsoc_device_region] and [vsoc_shm_layout_descriptor] (uapi/vsoc_shm.h)
    are not part of the sources at hand.  The records list the fields that
    the design document names for the shared-memory header, under the
    names [WriteLayout] uses for them.  The offsets of a descriptor are
    32-bit fields: [region_end_offset], which is assigned the [size_t] sum
    of a begin offset and a region size, keeps the low 32 bits of it; the
    other offsets are assigned [uint32_t] values.  Versions, counts and
    indices hold the value assigned to them. *)
Record vsoc_signal_table_layout : Type := SignalTable {
  num_nodes_lg2 : Z;
  futex_uaddr_table_offset : Z;
  interrupt_signalled_offset : Z
}.

Record vsoc_device_region : Type := DeviceRegion {
  current_version : Z;
  min_compatible_version : Z;
  region_begin_offset : Z;
  region_end_offset : Z;
  offset_of_region_data : Z;
  device_name : string;
  guest_to_host_signal_table : vsoc_signal_table_layout;
  host_to_guest_signal_table : vsoc_signal_table_layout;
  managed_by : Z
}.

Record vsoc_shm_layout_descriptor : Type := LayoutDescriptor {
  major_version : Z;
  minor_version : Z;
  size : Z;
  region_count : Z;
  vsoc_region_desc_offset : Z
}.

(** What [WriteLayout] leaves in the buffer: the header, then the region
    descriptors in the order of the table. *)
Record shared_memory : Type := SharedMemory {
  header : vsoc_shm_layout_descriptor;
  region_descriptions : list vsoc_device_region
}.

Definition WriteSignalTableDescription (offset : Z) (log_size : Z)
    : vsoc_signal_table_layout * Z :=
  let futex := offset in
  let offset := wrap32 (offset + shl1 log_size * sizeof_uint32) in
  let interrupt := offset in
  let offset := wrap32 (offset + sizeof_uint32) in
  ({| num_nodes_lg2 := log_size;
      futex_uaddr_table_offset := futex;
      interrupt_signalled_offset := interrupt |}, offset).

(** [strncpy(dst, src, n)] followed by [dst[n] = 0], read back as a
    string. *)
Definition strncpy (src : string) (n : nat) : string := String.substring 0 n src.

(** [WriteRegionDescription]; [managed_by] is filled in by the caller and
    is passed through from [previous]. *)
Definition WriteRegionDescription (P : platform) (previous_managed_by : Z)
    (region : VSoCRegionLayoutImpl) : outcome vsoc_device_region :=
  let offset := 0 in
  let '(g2h, offset) :=
    WriteSignalTableDescription offset (guest_to_host_signal_table_log_size_ region) in
  let '(h2g, offset) :=
    WriteSignalTableDescription offset (host_to_guest_signal_table_log_size_ region) in
  let desc :=
    {| current_version := 0;
       min_compatible_version := 0;
       region_begin_offset := begin_offset_ region;
       region_end_offset := wrap32 (begin_offset_ region + size_ region);
       offset_of_region_data := GetOffsetOfRegionData region;
       device_name := strncpy (c_chars (region_name_ region)) (VSOC_DEVICE_NAME_SZ P - 1);
       guest_to_host_signal_table := g2h;
       host_to_guest_signal_table := h2g;
       managed_by := previous_managed_by |} in
  if offset >? offset_of_region_data desc then Stop LogFatal else Done desc.

Definition set_managed_by (d : vsoc_device_region) (m : Z) : vsoc_device_region :=
  {| current_version := current_version d;
     min_compatible_version := min_compatible_version d;
     region_begin_offset := region_begin_offset d;
     region_end_offset := region_end_offset d;
     offset_of_region_data := offset_of_region_data d;
     device_name := device_name d;
     guest_to_host_signal_table := guest_to_host_signal_table d;
     host_to_guest_signal_table := host_to_guest_signal_table d;
     managed_by := m |}.

(** The body of the [for] loop of [WriteLayout], for one region. *)
Definition WriteLayout_region (P : platform) (region_idx_by_name : gmap Z nat)
    (region : VSoCRegionLayoutImpl) : outcome vsoc_device_region :=
  shmem_region_desc ← WriteRegionDescription P 0 region;
  match managed_by_ region with
  | Some manager =>
      match region_idx_by_name !! c_addr manager with
      | None => Stop OutOfRange
      | Some manager_idx =>
          if Z.of_nat manager_idx =? VSOC_REGION_WHOLE P then Stop LogFatal
          else Done (set_managed_by shmem_region_desc (Z.of_nat manager_idx))
      end
  | None => Done (set_managed_by shmem_region_desc (VSOC_REGION_WHOLE P))
  end.

Fixpoint WriteLayout_loop (P : platform) (region_idx_by_name : gmap Z nat)
    (regions : list VSoCRegionLayoutImpl) : outcome (list vsoc_device_region) :=
  match regions with
  | [] => Done []
  | region :: rest =>
      desc ← WriteLayout_region P region_idx_by_name region;
      descs ← WriteLayout_loop P region_idx_by_name rest;
      Done (desc :: descs)
  end.

Definition WriteLayout (P : platform) (l : VSoCMemoryLayoutImpl) : outcome shared_memory :=
  let header :=
    {| major_version := CURRENT_VSOC_LAYOUT_MAJOR_VERSION;
       minor_version := CURRENT_VSOC_LAYOUT_MINOR_VERSION P;
       size := GetMemoryFileSize l;
       region_count := Z.of_nat (length (regions_ l));
       vsoc_region_desc_offset := sizeof_vsoc_shm_layout_descriptor P |} in
  descs ← WriteLayout_loop P (region_idx_by_name_ l) (regions_ l);
  Done {| header := header; region_descriptions := descs |}.

(** ** Socket-forward proxy *)

Definition byte : Type := Byte.byte.

(** Modelled from the spec: [vsoc::socket_forward::Packet]
    (socket_forward_layout.h) is not part of the sources at hand.  A
    packet carries an end-of-stream marker and [payload_length] payload
    bytes. *)
Record Packet : Type := MkPacket {
  IsEnd : bool;
  payload : list byte
}.

Definition payload_length (packet : Packet) : Z := Z.of_nat (length (payload packet)).

(** A [cvd::SharedFD] as the proxy sees it: whether it is open, the bytes
    written to it so far, whether its send side has been shut down, and
    how many [Send] calls it has served. *)
Record SharedFD : Type := MkFD {
  IsOpen : bool;
  sent : list byte;
  shut_wr : bool;
  send_calls : nat
}.

(** The peer and the kernel decide what a [Send] returns: [net n] is the
    return value of the [n]-th call.  A positive value is the number of
    bytes taken from the front of the buffer, never more than were
    offered; any other value takes nothing. *)
Definition Send (net : nat -> Z) (socket_ : SharedFD) (buf : list byte) : Z * SharedFD :=
  let r := net (send_calls socket_) in
  let just_written := if r <=? 0 then r else Z.min r (Z.of_nat (length buf)) in
  (just_written,
   {| IsOpen := IsOpen socket_;
      sent := sent socket_ ++ take (Z.to_nat just_written) buf;
      shut_wr := shut_wr socket_;
      send_calls := S (send_calls socket_) |}).

(** The socket after a [Send] that took nothing. *)
Definition after_empty_send (socket_ : SharedFD) : SharedFD :=
  {| IsOpen := IsOpen socket_;
     sent := sent socket_;
     shut_wr := shut_wr socket_;
     send_calls := S (send_calls socket_) |}.

(** [Shutdown(SHUT_WR)] *)
Definition Shutdown_WR (socket_ : SharedFD) : SharedFD :=
  {| IsOpen := IsOpen socket_;
     sent := sent socket_;
     shut_wr := true;
     send_calls := send_calls socket_ |}.

(** [SocketSender::SendAll].  [steps] bounds the iterations of the
    [while] loop; [None] means the bound was too small
    (it never is for [SendAll], see [SendAll_returns]). *)
Fixpoint SendAll_loop (steps : nat) (net : nat -> Z) (socket_ : SharedFD)
    (packet : Packet) (written : Z) : option (Z * SharedFD) :=
  if written <? payload_length packet then
    match steps with
    | O => None
    | S steps' =>
        if negb (IsOpen socket_) then Some (-1, socket_)
        else
          let '(just_written, socket_) :=
            Send net socket_ (drop (Z.to_nat written) (payload packet)) in
          if just_written <=? 0 then Some (just_written, socket_)
          else SendAll_loop steps' net socket_ packet (written + just_written)
    end
  else Some (written, socket_).

Definition SendAll (net : nat -> Z) (socket_ : SharedFD) (packet : Packet)
    : option (Z * SharedFD) :=
  SendAll_loop (length (payload packet)) net socket_ packet 0.

(** How far [ShmToSocket] got on a finite prefix of the packets that the
    channel delivers. *)
Inductive pump_status : Type :=
| Exited      (* the loop was left and the function returned *)
| Receiving.  (* every packet so far was handled; blocked in [Recv] *)

Fixpoint ShmToSocket_loop (net : nat -> Z) (socket_sender : SharedFD)
    (received : list Packet) : option (pump_status * SharedFD) :=
  match received with
  | [] => Some (Receiving, socket_sender)
  | packet :: rest =>
      if IsEnd packet then Some (Exited, socket_sender)
      else
        match SendAll net socket_sender packet with
        | None => None
        | Some (result, socket_sender) =>
            if result <? 0 then Some (Exited, socket_sender)
            else ShmToSocket_loop net socket_sender rest
        end
  end.

(** [ShmToSocket]: when the function returns, the by-value
    [SocketSender] parameter is destroyed, and its destructor shuts the
    send side down. *)
Definition ShmToSocket (net : nat -> Z) (socket_sender : SharedFD)
    (received : list Packet) : option (pump_status * SharedFD) :=
  match ShmToSocket_loop net socket_sender received with
  | Some (Exited, socket_sender) => Some (Exited, Shutdown_WR socket_sender)
  | other => other
  end.

(** What [OpenSocketConnection] does besides connecting. *)
Inductive dial_event : Type :=
| LogWarning          (* "could not connect on port ... sleeping for 1 second" *)
| Sleep (seconds : Z).

(** [OpenSocketConnection]: [connect n] is the socket that the [n]-th
    call of [SocketLocalClient] returns.  [fuel] bounds the number of
    attempts; [None] means the loop is still retrying. *)
Fixpoint OpenSocketConnection_loop (fuel : nat) (connect : nat -> SharedFD)
    (attempt : nat) (trace : list dial_event) : option (SharedFD * list dial_event) :=
  match fuel with
  | O => None
  | S fuel' =>
      let sock := connect attempt in
      if IsOpen sock then Some (sock, trace)
      else OpenSocketConnection_loop fuel' connect (S attempt)
             (trace ++ [LogWarning; Sleep 1])
  end.

Definition OpenSocketConnection (fuel : nat) (connect : nat -> SharedFD)
    : option (SharedFD * list dial_event) :=
  OpenSocketConnection_loop fuel connect 0%nat [].

(** ** Planner inputs and reachable layouts *)

(** One entry of the region list of [VSoCMemoryLayout::Get]: the template
    argument [R] contributes [R::region_name] and [sizeof(R)]. *)
Record RegionSpec : Type := Spec {
  spec_name : c_str;
  spec_layout_size : Z;
  spec_guest_to_host_log_size : Z;
  spec_host_to_guest_log_size : Z;
  spec_managed_by : option c_str
}.

Definition ValidateAndBuildLayout (P : platform) (s : RegionSpec) : VSoCRegionLayoutImpl :=
  new_VSoCRegionLayoutImpl P (spec_name s) (spec_layout_size s)
    (spec_guest_to_host_log_size s) (spec_host_to_guest_log_size s) (spec_managed_by s).

(** [Plan]: build the regions, then the layout. *)
Definition Plan (P : platform) (specs : list RegionSpec) : outcome VSoCMemoryLayoutImpl :=
  new_VSoCMemoryLayoutImpl P (ValidateAndBuildLayout P <$> specs).

(** The layouts a process can hold: the result of a construction that
    returned, followed by any number of [ResizeRegion] calls that returned
    [true]. *)
Inductive planned (P : platform) : VSoCMemoryLayoutImpl -> Prop :=
| planned_new specs l :
    Plan P specs = Done l ->
    planned P l
| planned_resize l region_name new_min_size l' :
    planned P l ->
    ResizeRegion P l region_name new_min_size = Done (true, l') ->
    planned P l'.

(** [sysconf(_SC_PAGESIZE)] is a power of two that fits a [uint32_t]. *)
Definition valid_platform (P : platform) : Prop :=
  0 < page_size P < 2 ^ 32 /\ (page_size P | 2 ^ 32).

(** The end of the last region, as a mathematical integer. *)
Definition end_offset (r : VSoCRegionLayoutImpl) : Z := begin_offset_ r + size_ r.

(** Two regions that differ at most in [begin_offset_]. *)
Definition same_but_begin (r r' : VSoCRegionLayoutImpl) : Prop :=
  r' = SetBeginOffset r (begin_offset_ r').

(** Two regions that differ at most in [size_]. *)
Definition same_but_size (r r' : VSoCRegionLayoutImpl) : Prop :=
  r' = SetRegionSize r (size_ r').

(** Two regions with the same constructor arguments. *)
Definition same_static (r r' : VSoCRegionLayoutImpl) : Prop :=
  region_name_ r' = region_name_ r /\
  layout_size_ r' = layout_size_ r /\
  guest_to_host_signal_table_log_size_ r' = guest_to_host_signal_table_log_size_ r /\
  host_to_guest_signal_table_log_size_ r' = host_to_guest_signal_table_log_size_ r /\
  managed_by_ r' = managed_by_ r.

(** The addresses of the names of the regions, in declaration order. *)
Definition name_addrs (regions : list VSoCRegionLayoutImpl) : list Z :=
  (fun r => c_addr (region_name_ r)) <$> regions.

(** Some region is managed by the region whose index is the value that
    [VSOC_REGION_WHOLE] reserves. *)
Definition manager_is_whole (P : platform) (l : VSoCMemoryLayoutImpl) : Prop :=
  exists i r manager manager_idx,
    regions_ l !! i = Some r /\
    managed_by_ r = Some manager /\
    region_idx_by_name_ l !! c_addr manager = Some manager_idx /\
    Z.of_nat manager_idx = VSOC_REGION_WHOLE P.

(** The smallest power of two that is at least [val]. *)
Definition least_power_of_2 (val p : Z) : Prop :=
  exists k, 0 <= k /\ p = 2 ^ k /\ val <= p /\
    forall j, 0 <= j -> val <= 2 ^ j -> p <= 2 ^ j.

(** ** Invariants of a layout *)

(** Every index of [region_idx_by_name_] is the position of the region
    that carries the name. *)
Definition names_indexed (l : VSoCMemoryLayoutImpl) : Prop :=
  forall a k, region_idx_by_name_ l !! a = Some k ->
    exists r, regions_ l !! k = Some r /\ c_addr (region_name_ r) = a.

Definition managers_known (l : VSoCMemoryLayoutImpl) : Prop :=
  forall i r manager, regions_ l !! i = Some r -> managed_by_ r = Some manager ->
    is_Some (region_idx_by_name_ l !! c_addr manager).

(** Region sizes fit 32 bits and, when the page size is a positive
    [uint32_t], are multiples of it. *)
Definition sizes_aligned (P : platform) (l : VSoCMemoryLayoutImpl) : Prop :=
  forall i r, regions_ l !! i = Some r ->
    is_uint32 (size_ r) /\ (0 < page_size P < 2 ^ 32 -> (page_size P | size_ r)).

Definition first_begin (P : platform) (l : VSoCMemoryLayoutImpl) : Prop :=
  forall r, regions_ l !! 0%nat = Some r ->
    begin_offset_ r = first_region_offset P (length (regions_ l)).

(** Each region begins where the 32-bit sum of its predecessor's begin
    offset and size lands. *)
Definition begins_chained (l : VSoCMemoryLayoutImpl) : Prop :=
  forall i r r', regions_ l !! i = Some r -> regions_ l !! S i = Some r' ->
    begin_offset_ r' = wrap32 (end_offset r).

Definition device_size_from_last (l : VSoCMemoryLayoutImpl) : Prop :=
  forall r, last (regions_ l) = Some r ->
    AlignToPowerOf2 (wrap32 (end_offset r)) = Some (device_size_ l).

Record layout_inv (P : platform) (l : VSoCMemoryLayoutImpl) : Prop := LayoutInv {
  inv_names : names_indexed l;
  inv_managers : managers_known l;
  inv_sizes : sizes_aligned P l;
  inv_first : first_begin P l;
  inv_chain : begins_chained l;
  inv_device : device_size_from_last l
}.

(** ** Concrete inputs used by the examples below *)

Definition host_platform : platform :=
  {| page_size := 4096;
     sizeof_vsoc_shm_layout_descriptor := 20;
     sizeof_vsoc_device_region := 60;
     VSOC_DEVICE_NAME_SZ := 16;
     VSOC_REGION_WHOLE := 0;
     CURRENT_VSOC_LAYOUT_MINOR_VERSION := 0 |}.

Definition name_screen : c_str := CStr 4096 "screen".
Definition name_gralloc_manager : c_str := CStr 4224 "gralloc_manager".
Definition name_gralloc_memory : c_str := CStr 4352 "gralloc_memory".
Definition name_unknown : c_str := CStr 9000 "unknown".

Definition spec_screen : RegionSpec := Spec name_screen 100 2 2 None.
Definition spec_gralloc_manager : RegionSpec := Spec name_gralloc_manager 5000 2 2 None.
Definition spec_gralloc_memory : RegionSpec :=
  Spec name_gralloc_memory 0 0 0 (Some name_gralloc_manager).

(** A region that names itself as its manager. *)
Definition spec_self_managed : RegionSpec :=
  Spec name_gralloc_memory 0 0 0 (Some name_gralloc_memory).

(** The list of [Get], shortened: the manager is declared before the
    region it manages, and is not the first region. *)
Definition specs_good : list RegionSpec :=
  [spec_screen; spec_gralloc_manager; spec_gralloc_memory].

(** The managed region is declared before its manager. *)
Definition specs_manager_later : list RegionSpec :=
  [spec_screen; spec_gralloc_memory; spec_gralloc_manager].

(** The manager is the first region, whose index is [VSOC_REGION_WHOLE]
    on [host_platform]. *)
Definition specs_manager_first : list RegionSpec :=
  [spec_gralloc_manager; spec_gralloc_memory].

Definition eval_layout (o : outcome VSoCMemoryLayoutImpl) : VSoCMemoryLayoutImpl :=
  match o with
  | Done l => l
  | Stop _ => Layout [] ∅ 0
  end.

Definition layout_good : VSoCMemoryLayoutImpl :=
  Eval vm_compute in eval_layout (Plan host_platform specs_good).

Definition eval_resize (o : outcome (bool * VSoCMemoryLayoutImpl)) : VSoCMemoryLayoutImpl :=
  match o with
  | Done (_, l) => l
  | Stop _ => Layout [] ∅ 0
  end.

(** [layout_good] after [ResizeRegion("screen", 0xFFFFF000)]. *)
Definition layout_wrapped : VSoCMemoryLayoutImpl :=
  Eval vm_compute in
    eval_resize (ResizeRegion host_platform layout_good name_screen 4294963200).

(** A single region, and the layout after it was resized to 0xFFFFF000. *)
Definition layout_single : VSoCMemoryLayoutImpl :=
  Eval vm_compute in eval_layout (Plan host_platform [spec_screen]).

Definition layout_single_wrapped : VSoCMemoryLayoutImpl :=
  Eval vm_compute in
    eval_resize (ResizeRegion host_platform layout_single name_screen 4294963200).

(** [layout_single] after the region was grown to two pages. *)
Definition layout_single_grown : VSoCMemoryLayoutImpl :=
  Eval vm_compute in
    eval_resize (ResizeRegion host_platform layout_single name_screen 8192).

(** [layout_good] after [ResizeRegion("gralloc_manager", 16384)]. *)
Definition layout_good_grown : VSoCMemoryLayoutImpl :=
  Eval vm_compute in
    eval_resize (ResizeRegion host_platform layout_good name_gralloc_manager 16384).

(** The layout of [specs_manager_first]. *)
Definition layout_manager_first : VSoCMemoryLayoutImpl :=
  Eval vm_compute in eval_layout (Plan host_platform specs_manager_first).

Definition bytes_ab : list byte := [Byte.x61; Byte.x62].
Definition bytes_cd : list byte := [Byte.x63; Byte.x64].

Definition fresh_socket : SharedFD :=
  {| IsOpen := true; sent := []; shut_wr := false; send_calls := 0 |}.

Definition closed_socket : SharedFD :=
  {| IsOpen := false; sent := []; shut_wr := false; send_calls := 0 |}.

Definition packet_ab : Packet := MkPacket false bytes_ab.
Definition packet_cd : Packet := MkPacket false bytes_cd.
Definition packet_end : Packet := MkPacket true [].

(** What [OpenSocketConnection] logs and sleeps through before the
    connection attempt number [failures] succeeds. *)
Definition dial_trace (failures : nat) : list dial_event :=
  concat (replicate failures [LogWarning; Sleep 1]).

(** A socket that takes one byte per [Send]. *)
Definition net_one_byte : nat -> Z := fun _ => 1.

(** A socket whose first [Send] returns 0 and that takes everything
    afterwards. *)
Definition net_zero_first : nat -> Z := fun n =>
  match n with
  | O => 0
  | S _ => 65536
  end.

(** A socket whose [Send] fails on the second call. *)
Definition net_error_second : nat -> Z := fun n =>
  match n with
  | 1%nat => -1
  | _ => 1
  end.

(** A local service that accepts the third connection attempt. *)
Definition connect_third : nat -> SharedFD := fun n =>
  match n with
  | 0%nat | 1%nat => closed_socket
  | _ => fresh_socket
  end.

(** A local service that never comes up. *)
Definition connect_never : nat -> SharedFD := fun _ => closed_socket.

(** ** Socket-to-channel direction *)

(** A socket as [SocketReceiver] sees it: the bytes that the peer has
    sent and that no [Read] has returned yet, and the number of [Read]
    calls served. *)
Record SocketIn : Type := MkIn {
  pending : list byte;
  read_calls : nat
}.

(** [Read(buf, count)]: [recv n] is what the kernel is ready to hand over
    at the [n]-th call.  A negative value is an error and takes nothing;
    otherwise the call returns the bytes at the front of [pending], at
    most [recv n] of them and never more than [count]; it returns 0 when
    nothing is pending (the peer closed). *)
Definition Read (recv : nat -> Z) (socket_ : SocketIn) (count : Z)
    : Z * list byte * SocketIn :=
  let r := recv (read_calls socket_) in
  if r <? 0 then
    (r, [], {| pending := pending socket_; read_calls := S (read_calls socket_) |})
  else
    let n := Z.to_nat (Z.min r (Z.min count (Z.of_nat (length (pending socket_))))) in
    (Z.of_nat n, take n (pending socket_),
     {| pending := drop n (pending socket_); read_calls := S (read_calls socket_) |}).

(** [SocketReceiver::Recv]: the packet keeps the status [MakeData] gave
    it; its payload is what [Read] stored, its length [size], or 0 when
    [Read] failed. *)
Definition Recv (capacity : Z) (recv : nat -> Z) (socket_ : SocketIn)
    : Packet * SocketIn :=
  let '(size, data, socket_) := Read recv socket_ capacity in
  let size := if size <? 0 then 0 else size in
  (MkPacket false (take (Z.to_nat size) data), socket_).

(** Modelled from the spec: [Packet::empty] (socket_forward_layout.h) is
    not part of the sources at hand.  A packet is empty when it is not an
    end-of-stream packet and its payload length is 0. *)
Definition empty (packet : Packet) : bool :=
  negb (IsEnd packet) && (payload_length packet =? 0).

(** [SocketToShm].  [capacity] is [sizeof packet->payload()]; [shm_ok n]
    is what the [n]-th [shm_sender.Send] returns; [forwarded] collects the
    packets for which it returned [true].  [fuel] bounds the iterations of
    the [while (true)] loop. *)
Fixpoint SocketToShm_loop (fuel : nat) (capacity : Z) (recv : nat -> Z)
    (shm_ok : nat -> bool) (socket_receiver : SocketIn) (forwarded : list Packet)
    : option (SocketIn * list Packet) :=
  match fuel with
  | O => None
  | S fuel' =>
      let '(packet, socket_receiver) := Recv capacity recv socket_receiver in
      if empty packet then Some (socket_receiver, forwarded)
      else if shm_ok (length forwarded) then
        SocketToShm_loop fuel' capacity recv shm_ok socket_receiver
          (forwarded ++ [packet])
      else Some (socket_receiver, forwarded)
  end.

(** Every iteration that does not leave the loop takes at least one
    pending byte, so one iteration more than there are pending bytes is
    always enough (see [SocketToShm_returns]). *)
Definition SocketToShm (capacity : Z) (recv : nat -> Z) (shm_ok : nat -> bool)
    (socket_receiver : SocketIn) : option (SocketIn * list Packet) :=
  SocketToShm_loop (S (length (pending socket_receiver))) capacity recv shm_ok
    socket_receiver [].

(** ** Further invariants of a layout *)

(** Every region is at least as large as its minimum size. *)
Definition sizes_cover_min (P : platform) (l : VSoCMemoryLayoutImpl) : Prop :=
  forall i r, regions_ l !! i = Some r -> GetMinRegionSize P r <= size_ r.

(** The name map sends the name of every region to the region's index. *)
Definition names_exact (l : VSoCMemoryLayoutImpl) : Prop :=
  forall i r, regions_ l !! i = Some r ->
    region_idx_by_name_ l !! c_addr (region_name_ r) = Some i.

(** A socket on which [Read] returns three bytes at a time. *)
Definition recv_three : nat -> Z := fun _ => 3.

(** A channel that takes every packet. *)
Definition shm_always : nat -> bool := fun _ => true.

(** A channel that is torn down after one packet. *)
Definition shm_once : nat -> bool := fun n =>
  match n with
  | O => true
  | S _ => false
  end.

Definition bytes_abcde : list byte :=
  [Byte.x61; Byte.x62; Byte.x63; Byte.x64; Byte.x65].

Definition socket_abcde : SocketIn := {| pending := bytes_abcde; read_calls := 0 |}.

(** The condition under which the constructor does not abort, on the
    planner's input. *)
Definition acceptable (specs : list RegionSpec) : Prop :=
  NoDup ((fun s => c_addr (spec_name s)) <$> specs) /\
  forall s manager, s ∈ specs -> spec_managed_by s = Some manager ->
    exists s', s' ∈ specs /\ c_addr (spec_name s') = c_addr manager.

(** * Properties *)

(** ** Machine arithmetic *)

Lemma wrap32_range (z : Z) : is_uint32 (wrap32 z).
Proof. unfold is_uint32, wrap32. apply Z.mod_pos_bound. lia. Qed.

Lemma wrap32_small (z : Z) : is_uint32 z -> wrap32 z = z.
Proof. unfold is_uint32, wrap32. intros H. apply Z.mod_small. exact H. Qed.

Lemma wrap32_add_l (a b : Z) : wrap32 (wrap32 a + b) = wrap32 (a + b).
Proof. unfold wrap32. apply Zplus_mod_idemp_l. Qed.

Lemma wrap32_divide (p z : Z) : (p | 2 ^ 32) -> (p | z) -> (p | wrap32 z).
Proof.
  intros Hp Hz. unfold wrap32.
  rewrite Z.mod_eq by lia.
  apply Z.divide_sub_r; [exact Hz|].
  apply Z.divide_mul_l. exact Hp.
Qed.

Section AlignToPageSize_facts.
Variable P : platform.
Hypothesis page_size_fits : 0 < page_size P < 2 ^ 32.

Lemma AlignToPageSize_eq (val : Z) :
  AlignToPageSize P val = wrap32 (val + (page_size P - 1)) / page_size P * page_size P.
Proof using page_size_fits.
  unfold AlignToPageSize.
  rewrite (wrap32_small (page_size P - 1)) by (unfold is_uint32; lia).
  pose proof (wrap32_range (val + (page_size P - 1))) as Hx.
  unfold is_uint32 in Hx.
  set (x := wrap32 (val + (page_size P - 1))) in *.
  assert (Hq : 0 <= x / page_size P) by (apply Z.div_pos; lia).
  assert (Hm : x / page_size P * page_size P <= x).
  { rewrite Z.mul_comm. apply Z.mul_div_le. lia. }
  assert (Hqx : x / page_size P <= x).
  { apply Z.div_le_upper_bound; nia. }
  rewrite (wrap32_small (x / page_size P)) by (unfold is_uint32; lia).
  apply wrap32_small. unfold is_uint32. nia.
Qed.

Lemma AlignToPageSize_aligned (val : Z) : (page_size P | AlignToPageSize P val).
Proof using page_size_fits.
  rewrite AlignToPageSize_eq. apply Z.divide_factor_r.
Qed.

Lemma AlignToPageSize_range (val : Z) : is_uint32 (AlignToPageSize P val).
Proof using Type. unfold AlignToPageSize. apply wrap32_range. Qed.

End AlignToPageSize_facts.

(** ** [AlignToPowerOf2] *)

Lemma AlignToPowerOf2_loop_exits (fuel : nat) : forall (i val : Z),
  0 <= i <= 31 ->
  val <= 2 ^ 31 ->
  (i = 0 \/ 2 ^ (i - 1) < val) ->
  32 - i <= Z.of_nat fuel ->
  exists k, i <= k <= 31 /\
    AlignToPowerOf2_loop fuel (2 ^ i) val = Some (2 ^ k) /\
    val <= 2 ^ k /\ (k = 0 \/ 2 ^ (k - 1) < val).
Proof.
  induction fuel as [|fuel IH]; intros i val Hi Hval Hprev Hfuel.
  - lia.
  - cbn [AlignToPowerOf2_loop].
    destruct (Z.ltb_spec (2 ^ i) val) as [Hlt|Hge].
    + assert (Hi31 : i < 31).
      { apply (Z.pow_lt_mono_r_iff 2); lia. }
      assert (Hdouble : wrap32 (2 ^ i * 2) = 2 ^ (i + 1)).
      { rewrite Z.pow_add_r by lia. change (2 ^ 1) with 2.
        apply wrap32_small. unfold is_uint32. split; [lia|].
        assert (2 ^ i <= 2 ^ 30) by (apply Z.pow_le_mono_r; lia). lia. }
      rewrite Hdouble.
      destruct (IH (i + 1) val) as (k & Hk & Hres & Hle & Hmin); try lia.
      { right. replace (i + 1 - 1) with i by lia. exact Hlt. }
      exists k. repeat split; try lia; assumption.
    + exists i. repeat split; try lia; assumption.
Qed.

Lemma AlignToPowerOf2_loop_zero (fuel : nat) (val : Z) :
  0 < val -> AlignToPowerOf2_loop fuel 0 val = None.
Proof.
  intros Hval. induction fuel as [|fuel IH]; [reflexivity|].
  cbn [AlignToPowerOf2_loop].
  destruct (Z.ltb_spec 0 val); [|lia].
  exact IH.
Qed.

Lemma AlignToPowerOf2_loop_spins (fuel : nat) : forall (i val : Z),
  0 <= i <= 31 ->
  2 ^ 31 < val ->
  AlignToPowerOf2_loop fuel (2 ^ i) val = None.
Proof.
  induction fuel as [|fuel IH]; intros i val Hi Hval; [reflexivity|].
  cbn [AlignToPowerOf2_loop].
  assert (Hpow : 2 ^ i <= 2 ^ 31) by (apply Z.pow_le_mono_r; lia).
  destruct (Z.ltb_spec (2 ^ i) val); [|lia].
  destruct (Z.eq_dec i 31) as [->|Hne].
  - change (wrap32 (2 ^ 31 * 2)) with 0.
    apply AlignToPowerOf2_loop_zero. lia.
  - assert (Hdouble : wrap32 (2 ^ i * 2) = 2 ^ (i + 1)).
    { rewrite Z.pow_add_r by lia. change (2 ^ 1) with 2.
      apply wrap32_small. unfold is_uint32. split; [lia|].
      assert (2 ^ i <= 2 ^ 30) by (apply Z.pow_le_mono_r; lia). lia. }
    rewrite Hdouble. apply IH; lia.
Qed.

Lemma AlignToPowerOf2_loop_least (fuel : nat) (val : Z) :
  val <= 2 ^ 31 ->
  (32 <= fuel)%nat ->
  exists p, AlignToPowerOf2_loop fuel 1 val = Some p /\ least_power_of_2 val p.
Proof.
  intros Hval Hfuel.
  destruct (AlignToPowerOf2_loop_exits fuel 0 val) as (k & Hk & Hres & Hle & Hmin);
    try lia.
  exists (2 ^ k). split; [exact Hres|].
  exists k. repeat split; try lia.
  intros j Hj Hvj.
  destruct Hmin as [->|Hmin].
  - change (2 ^ 0) with 1. assert (0 < 2 ^ j) by (apply Z.pow_pos_nonneg; lia). lia.
  - assert (Hlt : k - 1 < j).
    { apply (Z.pow_lt_mono_r_iff 2); lia. }
    apply Z.pow_le_mono_r; lia.
Qed.

Lemma least_power_of_2_unique (val p q : Z) :
  least_power_of_2 val p -> least_power_of_2 val q -> p = q.
Proof.
  intros (k & Hk & -> & Hle & Hmin) (j & Hj & -> & Hle' & Hmin').
  specialize (Hmin j Hj Hle'). specialize (Hmin' k Hk Hle). lia.
Qed.

(** The fuel that [AlignToPowerOf2] fixes decides the loop: with more
    fuel the answer is the same, also when there is none. *)
Lemma AlignToPowerOf2_fuel_irrelevant (fuel : nat) (val : Z) :
  (32 <= fuel)%nat ->
  AlignToPowerOf2_loop fuel 1 val = AlignToPowerOf2 val.
Proof.
  intros Hfuel. unfold AlignToPowerOf2.
  destruct (Z.le_gt_cases val (2 ^ 31)) as [Hle|Hgt].
  - destruct (AlignToPowerOf2_loop_least fuel val Hle Hfuel) as (p & Hp & Hlp).
    destruct (AlignToPowerOf2_loop_least 34 val Hle ltac:(lia)) as (q & Hq & Hlq).
    rewrite Hp, Hq. f_equal. eapply least_power_of_2_unique; eassumption.
  - change 1 with (2 ^ 0).
    rewrite !AlignToPowerOf2_loop_spins by lia. reflexivity.
Qed.

Lemma AlignToPowerOf2_Some (val p : Z) :
  AlignToPowerOf2 val = Some p -> val <= 2 ^ 31 /\ least_power_of_2 val p.
Proof.
  intros H.
  destruct (Z.le_gt_cases val (2 ^ 31)) as [Hle|Hgt].
  - split; [exact Hle|].
    destruct (AlignToPowerOf2_loop_least 34 val Hle ltac:(lia)) as (q & Hq & Hlq).
    unfold AlignToPowerOf2 in H. rewrite Hq in H. congruence.
  - unfold AlignToPowerOf2 in H. change 1 with (2 ^ 0) in H.
    rewrite AlignToPowerOf2_loop_spins in H by lia. discriminate.
Qed.

Lemma AlignToPowerOf2_None (val : Z) :
  AlignToPowerOf2 val = None <-> 2 ^ 31 < val.
Proof.
  split.
  - intros H. destruct (Z.le_gt_cases val (2 ^ 31)) as [Hle|Hgt]; [|lia].
    destruct (AlignToPowerOf2_loop_least 34 val Hle ltac:(lia)) as (q & Hq & _).
    unfold AlignToPowerOf2 in H. congruence.
  - intros H. unfold AlignToPowerOf2. change 1 with (2 ^ 0).
    apply AlignToPowerOf2_loop_spins; lia.
Qed.

(** ** The offset loop *)

Lemma SetBeginOffset_twice (r : VSoCRegionLayoutImpl) (a b : Z) :
  SetBeginOffset (SetBeginOffset r a) b = SetBeginOffset r b.
Proof. reflexivity. Qed.

Lemma same_but_begin_refl (r : VSoCRegionLayoutImpl) : same_but_begin r r.
Proof. unfold same_but_begin. destruct r; reflexivity. Qed.

Lemma same_but_begin_size (r r' : VSoCRegionLayoutImpl) :
  same_but_begin r r' -> size_ r' = size_ r.
Proof. unfold same_but_begin. intros ->. reflexivity. Qed.

Lemma UpdateRegionOffsets_loop_spec (steps : nat) :
  forall (regions : list VSoCRegionLayoutImpl) (offset : Z) (index : nat)
         (regions' : list VSoCRegionLayoutImpl) (offset' : Z),
  (length regions - index <= steps)%nat ->
  UpdateRegionOffsets_loop steps regions offset index = (regions', offset') ->
  length regions' = length regions /\
  (forall i, (i < index)%nat -> regions' !! i = regions !! i) /\
  (forall i r', regions' !! i = Some r' ->
     exists r, regions !! i = Some r /\ same_but_begin r r') /\
  (forall r', regions' !! index = Some r' -> begin_offset_ r' = offset) /\
  (forall i r1 r2, (index <= i)%nat ->
     regions' !! i = Some r1 -> regions' !! S i = Some r2 ->
     begin_offset_ r2 = wrap32 (end_offset r1)) /\
  ((length regions <= index)%nat -> offset' = offset) /\
  ((index < length regions)%nat ->
     exists r, last regions' = Some r /\ offset' = wrap32 (end_offset r)).
Proof.
  assert (Hdone : forall (regions : list VSoCRegionLayoutImpl) offset index,
    (length regions <= index)%nat ->
    length regions = length regions /\
    (forall i, (i < index)%nat -> regions !! i = regions !! i) /\
    (forall i r', regions !! i = Some r' ->
       exists r, regions !! i = Some r /\ same_but_begin r r') /\
    (forall r', regions !! index = Some r' -> begin_offset_ r' = offset) /\
    (forall i r1 r2, (index <= i)%nat ->
       regions !! i = Some r1 -> regions !! S i = Some r2 ->
       begin_offset_ r2 = wrap32 (end_offset r1)) /\
    ((length regions <= index)%nat -> offset = offset) /\
    ((index < length regions)%nat ->
       exists r, last regions = Some r /\ offset = wrap32 (end_offset r))).
  { intros regions offset index Hlen. repeat split; try reflexivity.
    - intros i r' Hi. exists r'. split; [exact Hi|apply same_but_begin_refl].
    - intros r' Hr'. apply lookup_lt_Some in Hr'. lia.
    - intros i r1 r2 Hi Hr1 _. apply lookup_lt_Some in Hr1. lia.
    - lia. }
  induction steps as [|steps IH]; intros regions offset index regions' offset' Hsteps Hloop.
  - cbn in Hloop. injection Hloop as <- <-. apply Hdone. lia.
  - cbn [UpdateRegionOffsets_loop] in Hloop.
    destruct (regions !! index) as [region|] eqn:Hregion.
    2:{ injection Hloop as <- <-. apply Hdone. apply lookup_ge_None. exact Hregion. }
    pose proof (lookup_lt_Some _ _ _ Hregion) as Hindex.
    apply IH in Hloop; [|rewrite length_insert; lia].
    rewrite length_insert in Hloop.
    destruct Hloop as (Hlen & Hbelow & Hsame & Hat & Hchain & Hpast & Hlast).
    assert (Hmine : regions' !! index = Some (SetBeginOffset region offset)).
    { rewrite Hbelow by lia. apply list_lookup_insert_eq. exact Hindex. }
    repeat split.
    + exact Hlen.
    + intros i Hi. rewrite Hbelow by lia. apply list_lookup_insert_ne. lia.
    + intros i r' Hr'. destruct (Hsame i r' Hr') as (r1 & Hr1 & Hsb).
      destruct (decide (i = index)) as [->|Hne].
      * rewrite list_lookup_insert_eq in Hr1 by exact Hindex.
        injection Hr1 as <-. exists region. split; [exact Hregion|].
        unfold same_but_begin in *. rewrite Hsb at 1. apply SetBeginOffset_twice.
      * rewrite list_lookup_insert_ne in Hr1 by congruence.
        exists r1. split; assumption.
    + intros r' Hr'. rewrite Hmine in Hr'. injection Hr' as <-. reflexivity.
    + intros i r1 r2 Hi Hr1 Hr2.
      destruct (decide (i = index)) as [->|Hne].
      * rewrite Hmine in Hr1. injection Hr1 as <-.
        rewrite (Hat r2 Hr2). reflexivity.
      * apply (Hchain i r1 r2); [lia|assumption|assumption].
    + lia.
    + intros _. destruct (decide (S index < length regions)%nat) as [Hmore|Hend].
      * apply Hlast. exact Hmore.
      * exists (SetBeginOffset region offset). split.
        -- rewrite last_lookup, Hlen.
           replace (Nat.pred (length regions)) with index by lia. exact Hmine.
        -- apply Hpast. lia.
Qed.

(** ** The name map *)

Lemma GetNameToIndexMap_from_spec (regions : list VSoCRegionLayoutImpl) :
  forall (index : nat) (result m : gmap Z nat),
  GetNameToIndexMap_from index regions result = Done m ->
  (forall a k, result !! a = Some k -> m !! a = Some k) /\
  (forall a k, m !! a = Some k ->
     result !! a = Some k \/
     exists i r, k = (index + i)%nat /\ regions !! i = Some r /\
                 c_addr (region_name_ r) = a) /\
  (forall i r, regions !! i = Some r -> is_Some (m !! c_addr (region_name_ r))).
Proof.
  induction regions as [|region rest IH]; intros index result m Hmap; cbn in Hmap.
  - injection Hmap as <-. repeat split.
    + auto.
    + intros a k Hk. left. exact Hk.
    + intros i r Hr. rewrite lookup_nil in Hr. discriminate.
  - destruct (result !! c_addr (region_name_ region)) as [old|] eqn:Hfresh;
      [discriminate|].
    apply IH in Hmap. destruct Hmap as (Hkeep & Hfrom & Hall).
    assert (Hhere : m !! c_addr (region_name_ region) = Some index).
    { apply Hkeep. apply lookup_insert_eq. }
    repeat split.
    + intros a k Hk. apply Hkeep.
      rewrite lookup_insert_ne; [exact Hk|]. intros <-. congruence.
    + intros a k Hk. destruct (Hfrom a k Hk) as [Hins|(i & r & -> & Hr & Ha)].
      * destruct (decide (c_addr (region_name_ region) = a)) as [<-|Hne].
        -- rewrite lookup_insert_eq in Hins. injection Hins as <-.
           right. exists 0%nat, region. repeat split. lia.
        -- rewrite lookup_insert_ne in Hins by exact Hne. left. exact Hins.
      * right. exists (S i), r. repeat split; [lia|exact Hr|exact Ha].
    + intros [|i] r Hr; cbn in Hr.
      * injection Hr as <-. eexists. exact Hhere.
      * eapply Hall. exact Hr.
Qed.

Lemma GetNameToIndexMap_indexed (regions : list VSoCRegionLayoutImpl) (m : gmap Z nat) :
  GetNameToIndexMap regions = Done m ->
  forall a k, m !! a = Some k ->
    exists r, regions !! k = Some r /\ c_addr (region_name_ r) = a.
Proof.
  intros Hmap a k Hk.
  apply GetNameToIndexMap_from_spec in Hmap. destruct Hmap as (_ & Hfrom & _).
  destruct (Hfrom a k Hk) as [Hempty|(i & r & -> & Hr & Ha)].
  - rewrite lookup_empty in Hempty. discriminate.
  - exists r. split; assumption.
Qed.

Lemma check_managed_by_spec (m : gmap Z nat) (regions : list VSoCRegionLayoutImpl) :
  check_managed_by m regions = Done tt ->
  forall i r manager, regions !! i = Some r -> managed_by_ r = Some manager ->
    is_Some (m !! c_addr manager).
Proof.
  induction regions as [|region rest IH]; intros Hcheck i r manager Hr Hmgr.
  - rewrite lookup_nil in Hr. discriminate.
  - cbn in Hcheck. destruct i as [|i]; cbn in Hr.
    + injection Hr as ->. rewrite Hmgr in Hcheck.
      destruct (m !! c_addr manager); [eauto|discriminate].
    + destruct (managed_by_ region) as [other|].
      * destruct (m !! c_addr other); [|discriminate]. eapply IH; eassumption.
      * eapply IH; eassumption.
Qed.

(** ** Construction and resize keep the invariants *)

Lemma same_but_begin_static (r r' : VSoCRegionLayoutImpl) :
  same_but_begin r r' -> same_static r r'.
Proof. unfold same_but_begin. intros ->. repeat split. Qed.

Lemma UpdateRegionOffsetsAndDeviceSize_Done (l l' : VSoCMemoryLayoutImpl)
    (offset : Z) (index : nat) :
  UpdateRegionOffsetsAndDeviceSize l offset index = Done l' ->
  exists offset',
    UpdateRegionOffsets_loop (length (regions_ l)) (regions_ l) offset index
      = (regions_ l', offset') /\
    region_idx_by_name_ l' = region_idx_by_name_ l /\
    AlignToPowerOf2 offset' = Some (device_size_ l').
Proof.
  unfold UpdateRegionOffsetsAndDeviceSize.
  destruct (UpdateRegionOffsets_loop _ _ _ _) as [regions' offset'].
  destruct (AlignToPowerOf2 offset') as [device|] eqn:Hdev; [|discriminate].
  intros H. injection H as <-. exists offset'. repeat split. exact Hdev.
Qed.

Lemma GetMinRegionSize_static (P : platform) (r r' : VSoCRegionLayoutImpl) :
  same_static r r' -> GetMinRegionSize P r' = GetMinRegionSize P r.
Proof.
  intros (_ & Hl & Hg & Hh & _).
  unfold GetMinRegionSize, GetOffsetOfRegionData. rewrite Hl, Hg, Hh. reflexivity.
Qed.

Lemma Plan_inv (P : platform) (specs : list RegionSpec) (l : VSoCMemoryLayoutImpl) :
  Plan P specs = Done l ->
  layout_inv P l.
Proof.
  unfold Plan, new_VSoCMemoryLayoutImpl.
  set (regions := ValidateAndBuildLayout P <$> specs).
  destruct (GetNameToIndexMap regions) as [m|] eqn:Hmap; [|discriminate].
  cbn [mbind outcome_bind].
  destruct (check_managed_by m regions) as [[]|] eqn:Hcheck; [|discriminate].
  cbn [mbind outcome_bind]. intros Hupd.
  apply UpdateRegionOffsetsAndDeviceSize_Done in Hupd.
  cbn [regions_ region_idx_by_name_] in Hupd.
  destruct Hupd as (offset' & Hloop & Hm & Hdev).
  apply UpdateRegionOffsets_loop_spec in Hloop; [|lia].
  destruct Hloop as (Hlen & _ & Hsame & Hat & Hchain & _ & Hlast).
  constructor.
  - intros a k Hk. rewrite Hm in Hk.
    destruct (GetNameToIndexMap_indexed _ _ Hmap a k Hk) as (r & Hr & Ha).
    destruct (lookup_lt_is_Some_2 (regions_ l) k) as [r' Hr'].
    { rewrite Hlen. eapply lookup_lt_Some. exact Hr. }
    destruct (Hsame k r' Hr') as (r0 & Hr0 & Hsb).
    exists r'. split; [exact Hr'|].
    apply same_but_begin_static in Hsb. destruct Hsb as (-> & _). congruence.
  - intros i r' manager Hr' Hmgr. rewrite Hm.
    destruct (Hsame i r' Hr') as (r0 & Hr0 & Hsb).
    apply same_but_begin_static in Hsb. destruct Hsb as (_ & _ & _ & _ & Hmb).
    eapply check_managed_by_spec; [exact Hcheck|exact Hr0|congruence].
  - intros i r' Hr'.
    destruct (Hsame i r' Hr') as (r0 & Hr0 & Hsb).
    rewrite (same_but_begin_size _ _ Hsb).
    subst regions. rewrite list_lookup_fmap in Hr0.
    destruct (specs !! i) as [s|]; [|discriminate]. injection Hr0 as <-.
    cbn. split; [apply AlignToPageSize_range|].
      intros HP. apply AlignToPageSize_aligned. exact HP.
  - intros r' Hr'. rewrite Hlen. apply Hat. exact Hr'.
  - intros i r1 r2 Hr1 Hr2. apply (Hchain i r1 r2); [lia|assumption|assumption].
  - intros r Hr.
    assert (Hne : (0 < length regions)%nat).
    { rewrite <- Hlen. destruct (regions_ l); [discriminate|cbn; lia]. }
    destruct (Hlast Hne) as (r0 & Hr0 & ->).
    rewrite Hr in Hr0. injection Hr0 as <-. exact Hdev.
Qed.

Lemma ResizeRegion_true (P : platform) (l l' : VSoCMemoryLayoutImpl)
    (region_name : c_str) (new_min_size : Z) :
  ResizeRegion P l region_name new_min_size = Done (true, l') ->
  exists index region offset',
    region_idx_by_name_ l !! c_addr region_name = Some index /\
    regions_ l !! index = Some region /\
    GetMinRegionSize P region <= AlignToPageSize P (wrap32 new_min_size) /\
    UpdateRegionOffsets_loop (length (regions_ l))
      (<[index := SetRegionSize region (AlignToPageSize P (wrap32 new_min_size))]> (regions_ l))
      (wrap32 (begin_offset_ region + AlignToPageSize P (wrap32 new_min_size)))
      (index + 1)
      = (regions_ l', offset') /\
    region_idx_by_name_ l' = region_idx_by_name_ l /\
    AlignToPowerOf2 offset' = Some (device_size_ l').
Proof.
  unfold ResizeRegion.
  destruct (region_idx_by_name_ l !! c_addr region_name) as [index|]; [|discriminate].
  destruct (regions_ l !! index) as [region|] eqn:Hregion; [|discriminate].
  destruct (Z.ltb_spec (AlignToPageSize P (wrap32 new_min_size))
              (GetMinRegionSize P region)) as [Hlt|Hge]; [discriminate|].
  cbn [begin_offset_ size_ SetRegionSize].
  destruct (UpdateRegionOffsetsAndDeviceSize _ _ _) as [l1|] eqn:Hupd; [|discriminate].
  cbn [mbind outcome_bind]. intros H. injection H as <-.
  apply UpdateRegionOffsetsAndDeviceSize_Done in Hupd.
  cbn [regions_ region_idx_by_name_] in Hupd. rewrite length_insert in Hupd.
  destruct Hupd as (offset' & Hloop & Hm & Hdev).
  exists index, region, offset'. repeat split; assumption.
Qed.

(** What a successful resize of region [index] does to every region. *)
Lemma ResizeRegion_frame (P : platform) (l l' : VSoCMemoryLayoutImpl)
    (region_name : c_str) (new_min_size : Z) :
  ResizeRegion P l region_name new_min_size = Done (true, l') ->
  exists index region,
    region_idx_by_name_ l !! c_addr region_name = Some index /\
    regions_ l !! index = Some region /\
    region_idx_by_name_ l' = region_idx_by_name_ l /\
    length (regions_ l') = length (regions_ l) /\
    (forall i, (i < index)%nat -> regions_ l' !! i = regions_ l !! i) /\
    regions_ l' !! index
      = Some (SetRegionSize region (AlignToPageSize P (wrap32 new_min_size))) /\
    (forall i r', (index < i)%nat -> regions_ l' !! i = Some r' ->
       exists r, regions_ l !! i = Some r /\ same_but_begin r r').
Proof.
  intros Hres. apply ResizeRegion_true in Hres.
  destruct Hres as (index & region & offset' & Hidx & Hregion & _ & Hloop & Hm & _).
  pose proof (lookup_lt_Some _ _ _ Hregion) as Hindex.
  apply UpdateRegionOffsets_loop_spec in Hloop; [|rewrite length_insert; lia].
  rewrite length_insert in Hloop.
  destruct Hloop as (Hlen & Hbelow & Hsame & _).
  exists index, region. repeat split; try assumption.
  - intros i Hi. rewrite Hbelow by lia. apply list_lookup_insert_ne. lia.
  - rewrite Hbelow by lia. apply list_lookup_insert_eq. exact Hindex.
  - intros i r' Hi Hr'. destruct (Hsame i r' Hr') as (r & Hr & Hsb).
    rewrite list_lookup_insert_ne in Hr by lia.
    exists r. split; assumption.
Qed.

Lemma ResizeRegion_inv (P : platform) (l l' : VSoCMemoryLayoutImpl)
    (region_name : c_str) (new_min_size : Z) :
  layout_inv P l ->
  ResizeRegion P l region_name new_min_size = Done (true, l') ->
  layout_inv P l'.
Proof.
  intros [Hnames Hmgrs Hsizes Hfirst Hchain Hdevice] Hres.
  pose proof (ResizeRegion_frame _ _ _ _ _ Hres)
    as (index & region & Hidx & Hregion & Hm & Hlen & Hbelow & Hmine & Habove).
  apply ResizeRegion_true in Hres.
  destruct Hres as (index' & region' & offset' & Hidx' & Hregion' & _ & Hloop & _ & Hdev).
  assert (index' = index) by congruence. subst index'.
  assert (region' = region) by congruence. subst region'.
  pose proof (lookup_lt_Some _ _ _ Hregion) as Hindex.
  apply UpdateRegionOffsets_loop_spec in Hloop; [|rewrite length_insert; lia].
  rewrite length_insert in Hloop.
  destruct Hloop as (_ & _ & _ & Hat & Hchain' & Hpast & Hlast).
  set (size' := AlignToPageSize P (wrap32 new_min_size)) in *.
  assert (Hstatic : forall i r', regions_ l' !! i = Some r' ->
            exists r, regions_ l !! i = Some r /\ same_static r r' /\
                      (i <> index -> size_ r' = size_ r)).
  { intros i r' Hr'.
    destruct (lt_eq_lt_dec i index) as [[Hlt | ->] | Hgt].
    - rewrite Hbelow in Hr' by exact Hlt. exists r'. repeat split. exact Hr'.
    - rewrite Hmine in Hr'. injection Hr' as <-. exists region.
      repeat split. exact Hregion. congruence.
    - destruct (Habove i r' Hgt Hr') as (r & Hr & Hsb). exists r.
      split; [exact Hr|]. split; [apply same_but_begin_static; exact Hsb|].
      intros _. apply same_but_begin_size. exact Hsb. }
  constructor.
  - intros a k Hk. rewrite Hm in Hk.
    destruct (Hnames a k Hk) as (r & Hr & Ha).
    destruct (lookup_lt_is_Some_2 (regions_ l') k) as [r' Hr'].
    { rewrite Hlen. eapply lookup_lt_Some. exact Hr. }
    destruct (Hstatic k r' Hr') as (r0 & Hr0 & (Hn & _) & _).
    exists r'. split; [exact Hr'|]. congruence.
  - intros i r' manager Hr' Hmgr. rewrite Hm.
    destruct (Hstatic i r' Hr') as (r0 & Hr0 & (_ & _ & _ & _ & Hmb) & _).
    apply (Hmgrs i r0 manager Hr0). congruence.
  - intros i r' Hr'.
    destruct (decide (i = index)) as [->|Hne].
    + rewrite Hmine in Hr'. injection Hr' as <-. cbn.
      split; [apply AlignToPageSize_range|].
      intros HP. apply AlignToPageSize_aligned. exact HP.
    + destruct (Hstatic i r' Hr') as (r0 & Hr0 & _ & Hsz).
      rewrite (Hsz Hne). apply (Hsizes i r0 Hr0).
  - intros r' Hr'. rewrite Hlen.
    destruct index as [|index].
    + rewrite Hmine in Hr'. injection Hr' as <-. cbn. apply Hfirst. exact Hregion.
    + rewrite Hbelow in Hr' by lia. apply Hfirst. exact Hr'.
  - intros i r1 r2 Hr1 Hr2.
    destruct (lt_eq_lt_dec i index) as [[Hlt | ->] | Hgt].
    + rewrite Hbelow in Hr1 by exact Hlt.
      destruct (decide (S i = index)) as [Heq|Hne].
      * rewrite Heq, Hmine in Hr2. injection Hr2 as <-. cbn.
        apply (Hchain i r1 region); [exact Hr1|rewrite Heq; exact Hregion].
      * rewrite Hbelow in Hr2 by lia. apply (Hchain i r1 r2); assumption.
    + rewrite Hmine in Hr1. injection Hr1 as <-.
      replace (S index) with (index + 1)%nat in Hr2 by lia.
      rewrite (Hat r2 Hr2). reflexivity.
    + apply (Hchain' i r1 r2); [lia|assumption|assumption].
  - intros r Hr.
    destruct (decide (index + 1 < length (regions_ l))%nat) as [Hmore|Hend].
    + destruct (Hlast Hmore) as (r0 & Hr0 & ->).
      rewrite Hr in Hr0. injection Hr0 as <-. exact Hdev.
    + rewrite last_lookup, Hlen in Hr.
      replace (Nat.pred (length (regions_ l))) with index in Hr by lia.
      rewrite Hmine in Hr. injection Hr as <-.
      rewrite Hpast in Hdev by lia. exact Hdev.
Qed.

Lemma planned_inv (P : platform) (l : VSoCMemoryLayoutImpl) :
  planned P l ->
  layout_inv P l.
Proof.
  intros Hplanned. induction Hplanned as [specs l Hplan|l name sz l' _ IH Hres].
  - eapply Plan_inv; eassumption.
  - eapply ResizeRegion_inv; eassumption.
Qed.

(** Begin offsets fit 32 bits and, on a platform whose page size divides
    2^32, are multiples of the page size. *)
Lemma begin_offset_aligned (P : platform) (l : VSoCMemoryLayoutImpl) :
  layout_inv P l ->
  forall i r, regions_ l !! i = Some r ->
    is_uint32 (begin_offset_ r) /\
    (valid_platform P -> (page_size P | begin_offset_ r)).
Proof.
  intros [_ _ Hsizes Hfirst Hchain _].
  induction i as [|i IH]; intros r Hr.
  - rewrite (Hfirst r Hr). unfold first_region_offset.
    split; [apply AlignToPageSize_range|].
    intros [HP _]. apply AlignToPageSize_aligned. exact HP.
  - destruct (lookup_lt_is_Some_2 (regions_ l) i) as [r0 Hr0].
    { apply lookup_lt_Some in Hr. lia. }
    rewrite (Hchain i r0 r Hr0 Hr).
    split; [apply wrap32_range|].
    intros [HP Hdiv]. apply wrap32_divide; [exact Hdiv|].
    unfold end_offset. apply Z.divide_add_r.
    + apply (IH r0 Hr0). split; assumption.
    + apply (Hsizes i r0 Hr0). exact HP.
Qed.

(** ** Facts about the concrete inputs *)

Lemma host_platform_valid : valid_platform host_platform.
Proof.
  split; [cbn; lia|]. exists (2 ^ 20). reflexivity.
Qed.

Lemma layout_good_planned : planned host_platform layout_good.
Proof. apply (planned_new _ specs_good). vm_compute. reflexivity. Qed.

Lemma layout_good_grown_planned : planned host_platform layout_good_grown.
Proof.
  apply (planned_resize _ layout_good name_gralloc_manager 16384).
  - exact layout_good_planned.
  - vm_compute. reflexivity.
Qed.

Lemma layout_wrapped_planned : planned host_platform layout_wrapped.
Proof.
  apply (planned_resize _ layout_good name_screen 4294963200).
  - exact layout_good_planned.
  - vm_compute. reflexivity.
Qed.

Lemma layout_single_planned : planned host_platform layout_single.
Proof. apply (planned_new _ [spec_screen]). vm_compute. reflexivity. Qed.

Lemma layout_single_wrapped_planned : planned host_platform layout_single_wrapped.
Proof.
  apply (planned_resize _ layout_single name_screen 4294963200).
  - exact layout_single_planned.
  - vm_compute. reflexivity.
Qed.

(** ** The layout is well-formed (C2) *)

(** C2, as stated, fails: after [ResizeRegion("screen", 0xFFFFF000)]
    returned [true] on a three-region layout, the first region begins at
    4096 and is 0xFFFFF000 bytes long, so it ends at 2^32, while the second
    region begins at 0: the [uint32_t] running offset wrapped. *)
Lemma C2_counterexample :
  planned host_platform layout_wrapped /\
  exists r r',
    regions_ layout_wrapped !! 0%nat = Some r /\
    regions_ layout_wrapped !! 1%nat = Some r' /\
    begin_offset_ r + size_ r = 4294967296 /\
    begin_offset_ r' = 0 /\
    begin_offset_ r + size_ r <> begin_offset_ r'.
Proof.
  split; [exact layout_wrapped_planned|].
  eexists _, _. split; [reflexivity|]. split; [reflexivity|].
  cbn. repeat split; lia.
Qed.

(** C2 (amended): after construction and after every successful
    [ResizeRegion], the first region begins at the page-aligned size of
    the header plus the descriptor table (as the constructor computes it in
    32-bit arithmetic); every region's begin offset and size are multiples
    of the page size; and each region begins at the sum of its
    predecessor's begin offset and size reduced modulo 2^32, which is that
    sum itself whenever the sum is below 2^32. *)
Theorem C2_layout_well_formed (P : platform) (l : VSoCMemoryLayoutImpl) :
  valid_platform P ->
  planned P l ->
  (forall r, regions_ l !! 0%nat = Some r ->
     begin_offset_ r = first_region_offset P (length (regions_ l))) /\
  (forall i r, regions_ l !! i = Some r ->
     (page_size P | begin_offset_ r) /\ (page_size P | size_ r)) /\
  (forall i r r', regions_ l !! i = Some r -> regions_ l !! S i = Some r' ->
     begin_offset_ r' = (begin_offset_ r + size_ r) mod 2 ^ 32 /\
     (begin_offset_ r + size_ r < 2 ^ 32 ->
      begin_offset_ r + size_ r = begin_offset_ r')).
Proof.
  intros HP Hplanned.
  pose proof (planned_inv P l Hplanned) as Hinv.
  pose proof (begin_offset_aligned P l Hinv) as Hbegin.
  destruct Hinv as [_ _ Hsizes Hfirst Hchain _].
  split; [exact Hfirst|]. split.
  - intros i r Hr.
    split; [apply (Hbegin i r Hr); exact HP|apply (Hsizes i r Hr); apply HP].
  - intros i r r' Hr Hr'.
    pose proof (Hchain i r r' Hr Hr') as Hnext. unfold end_offset in Hnext.
    split; [exact Hnext|].
    intros Hfit. rewrite Hnext. symmetry. apply wrap32_small.
    destruct (Hbegin i r Hr) as [Hb _]. destruct (Hsizes i r Hr) as [Hs _].
    unfold is_uint32 in *. lia.
Qed.

Lemma C2_layout_well_formed_witness :
  valid_platform host_platform /\
  planned host_platform layout_good_grown /\
  (forall r, regions_ layout_good_grown !! 0%nat = Some r ->
     begin_offset_ r
       = first_region_offset host_platform (length (regions_ layout_good_grown))) /\
  (forall i r, regions_ layout_good_grown !! i = Some r ->
     (page_size host_platform | begin_offset_ r) /\
     (page_size host_platform | size_ r)) /\
  (forall i r r', regions_ layout_good_grown !! i = Some r ->
     regions_ layout_good_grown !! S i = Some r' ->
     begin_offset_ r' = (begin_offset_ r + size_ r) mod 2 ^ 32 /\
     (begin_offset_ r + size_ r < 2 ^ 32 ->
      begin_offset_ r + size_ r = begin_offset_ r')).
Proof.
  assert (Hvalid : valid_platform host_platform).
  { split; [cbn; lia|]. exists (2 ^ 20). reflexivity. }
  assert (Hplanned : planned host_platform layout_good_grown).
  { apply (planned_resize _ layout_good name_gralloc_manager 16384).
    - apply (planned_new _ specs_good). vm_compute. reflexivity.
    - vm_compute. reflexivity. }
  split; [exact Hvalid|]. split; [exact Hplanned|].
  exact (C2_layout_well_formed host_platform layout_good_grown Hvalid Hplanned).
Defined.

(** ** Rejected resizes (C3) *)

(** C3, as stated, fails: the region of [layout_single_grown] needs 4096
    bytes and is 8192 bytes long; a request for 1 byte, which is smaller
    than the minimum, is rounded up to 4096 first, so [ResizeRegion]
    returns [true] and shrinks the region to 4096 bytes. *)
Lemma C3_counterexample :
  exists region l' region',
    GetRegionByName layout_single_grown name_screen = Some region /\
    1 < GetMinRegionSize host_platform region /\
    size_ region = 8192 /\
    ResizeRegion host_platform layout_single_grown name_screen 1 = Done (true, l') /\
    GetRegionByName l' name_screen = Some region' /\
    size_ region' = 4096.
Proof.
  eexists _, _, _. split; [reflexivity|].
  split; [vm_compute; reflexivity|].
  split; [reflexivity|].
  split; [vm_compute; reflexivity|].
  split; reflexivity.
Qed.

(** C3 (amended): [ResizeRegion] returns [false] and leaves the layout
    (every begin offset, every region size and the device size) as it was
    whenever the named region does not exist, or the requested size,
    narrowed to 32 bits and rounded up to the page size, is smaller than
    the region's minimum required size. *)
Theorem C3_resize_rejected (P : platform) (l : VSoCMemoryLayoutImpl)
    (region_name : c_str) (new_min_size : Z) :
  (region_idx_by_name_ l !! c_addr region_name = None \/
   exists index region,
     region_idx_by_name_ l !! c_addr region_name = Some index /\
     regions_ l !! index = Some region /\
     AlignToPageSize P (wrap32 new_min_size) < GetMinRegionSize P region) ->
  ResizeRegion P l region_name new_min_size = Done (false, l).
Proof.
  unfold ResizeRegion.
  intros [->|(index & region & -> & -> & Hlt)]; [reflexivity|].
  destruct (Z.ltb_spec (AlignToPageSize P (wrap32 new_min_size))
              (GetMinRegionSize P region)); [reflexivity|lia].
Qed.

Lemma C3_resize_rejected_witness :
  (exists index region,
     region_idx_by_name_ layout_good !! c_addr name_gralloc_manager = Some index /\
     regions_ layout_good !! index = Some region /\
     AlignToPageSize host_platform (wrap32 4000)
       < GetMinRegionSize host_platform region) /\
  ResizeRegion host_platform layout_good name_gralloc_manager 4000
    = Done (false, layout_good) /\
  region_idx_by_name_ layout_good !! c_addr name_unknown = None /\
  ResizeRegion host_platform layout_good name_unknown 8192
    = Done (false, layout_good).
Proof.
  assert (Hsmall : exists index region,
     region_idx_by_name_ layout_good !! c_addr name_gralloc_manager = Some index /\
     regions_ layout_good !! index = Some region /\
     AlignToPageSize host_platform (wrap32 4000)
       < GetMinRegionSize host_platform region).
  { eexists _, _. split; [vm_compute; reflexivity|].
    split; [reflexivity|]. vm_compute. reflexivity. }
  assert (Hunknown :
     region_idx_by_name_ layout_good !! c_addr name_unknown = None).
  { vm_compute. reflexivity. }
  split; [exact Hsmall|]. split.
  - apply (C3_resize_rejected host_platform layout_good name_gralloc_manager).
    right. exact Hsmall.
  - split; [exact Hunknown|].
    apply (C3_resize_rejected host_platform layout_good name_unknown).
    left. exact Hunknown.
Defined.

(** ** What a successful resize touches (C4) *)

(** C4: a [ResizeRegion] that returns [true] for the region at index [k]
    leaves every region below [k] as it was, changes nothing of region [k]
    but its size (so its begin offset stays), and changes nothing of a
    region above [k] but its begin offset (so its size stays); the number
    of regions and the name map stay as well.  Only the device size may
    change besides. *)
Theorem C4_resize_frame (P : platform) (l l' : VSoCMemoryLayoutImpl)
    (region_name : c_str) (new_min_size : Z) :
  ResizeRegion P l region_name new_min_size = Done (true, l') ->
  exists k region,
    region_idx_by_name_ l !! c_addr region_name = Some k /\
    regions_ l !! k = Some region /\
    region_idx_by_name_ l' = region_idx_by_name_ l /\
    length (regions_ l') = length (regions_ l) /\
    (forall i, (i < k)%nat -> regions_ l' !! i = regions_ l !! i) /\
    (exists region', regions_ l' !! k = Some region' /\
       same_but_size region region' /\
       begin_offset_ region' = begin_offset_ region) /\
    (forall i r', (k < i)%nat -> regions_ l' !! i = Some r' ->
       exists r, regions_ l !! i = Some r /\
         same_but_begin r r' /\ size_ r' = size_ r).
Proof.
  intros Hres.
  destruct (ResizeRegion_frame _ _ _ _ _ Hres)
    as (k & region & Hidx & Hregion & Hm & Hlen & Hbelow & Hmine & Habove).
  exists k, region. repeat split; try assumption.
  - eexists. split; [exact Hmine|]. split; reflexivity.
  - intros i r' Hi Hr'. destruct (Habove i r' Hi Hr') as (r & Hr & Hsb).
    exists r. repeat split; [exact Hr|exact Hsb|].
    apply same_but_begin_size. exact Hsb.
Qed.

Lemma C4_resize_frame_witness :
  ResizeRegion host_platform layout_good name_gralloc_manager 16384
    = Done (true, layout_good_grown) /\
  exists k region,
    region_idx_by_name_ layout_good !! c_addr name_gralloc_manager = Some k /\
    regions_ layout_good !! k = Some region /\
    region_idx_by_name_ layout_good_grown = region_idx_by_name_ layout_good /\
    length (regions_ layout_good_grown) = length (regions_ layout_good) /\
    (forall i, (i < k)%nat -> regions_ layout_good_grown !! i = regions_ layout_good !! i) /\
    (exists region', regions_ layout_good_grown !! k = Some region' /\
       same_but_size region region' /\
       begin_offset_ region' = begin_offset_ region) /\
    (forall i r', (k < i)%nat -> regions_ layout_good_grown !! i = Some r' ->
       exists r, regions_ layout_good !! i = Some r /\
         same_but_begin r r' /\ size_ r' = size_ r).
Proof.
  assert (Hres : ResizeRegion host_platform layout_good name_gralloc_manager 16384
                   = Done (true, layout_good_grown)).
  { vm_compute. reflexivity. }
  split; [exact Hres|].
  exact (C4_resize_frame host_platform layout_good layout_good_grown
           name_gralloc_manager 16384 Hres).
Defined.

(** ** The device size (C5) *)

(** C5, as stated, fails: after [ResizeRegion("screen", 0xFFFFF000)]
    returned [true] on a one-region layout, the region begins at 4096 and
    ends at 2^32, and [GetMemoryFileSize] is 1. *)
Lemma C5_counterexample :
  planned host_platform layout_single_wrapped /\
  exists r,
    last (regions_ layout_single_wrapped) = Some r /\
    begin_offset_ r + size_ r = 4294967296 /\
    GetMemoryFileSize layout_single_wrapped = 1 /\
    ~ (begin_offset_ r + size_ r <= GetMemoryFileSize layout_single_wrapped).
Proof.
  split; [exact layout_single_wrapped_planned|].
  eexists. split; [reflexivity|]. cbn. repeat split; lia.
Qed.

(** C5 (amended): after construction and after every successful resize,
    the device size is the smallest power of two that is at least the end
    offset of the last region reduced modulo 2^32; it is the smallest power
    of two at or above the end offset itself whenever the end offset is
    below 2^32. *)
Theorem C5_device_size (P : platform) (l : VSoCMemoryLayoutImpl)
    (r : VSoCRegionLayoutImpl) :
  planned P l ->
  last (regions_ l) = Some r ->
  least_power_of_2 ((begin_offset_ r + size_ r) mod 2 ^ 32) (GetMemoryFileSize l) /\
  (begin_offset_ r + size_ r < 2 ^ 32 ->
   least_power_of_2 (begin_offset_ r + size_ r) (GetMemoryFileSize l)).
Proof.
  intros Hplanned Hlast.
  pose proof (planned_inv P l Hplanned) as Hinv.
  pose proof (begin_offset_aligned P l Hinv) as Hbegin.
  destruct Hinv as [_ _ Hsizes _ _ Hdevice].
  pose proof (Hdevice r Hlast) as Hdev.
  apply AlignToPowerOf2_Some in Hdev. destruct Hdev as [_ Hleast].
  unfold end_offset, wrap32 in Hleast. unfold GetMemoryFileSize.
  split; [exact Hleast|].
  intros Hfit. rewrite last_lookup in Hlast.
  destruct (Hbegin _ r Hlast) as [Hb _]. destruct (Hsizes _ r Hlast) as [Hs _].
  unfold is_uint32 in *.
  rewrite Z.mod_small in Hleast by lia. exact Hleast.
Qed.

Lemma C5_device_size_witness :
  planned host_platform layout_good_grown /\
  exists r,
    last (regions_ layout_good_grown) = Some r /\
    least_power_of_2 ((begin_offset_ r + size_ r) mod 2 ^ 32)
      (GetMemoryFileSize layout_good_grown) /\
    (begin_offset_ r + size_ r < 2 ^ 32 ->
     least_power_of_2 (begin_offset_ r + size_ r)
       (GetMemoryFileSize layout_good_grown)).
Proof.
  assert (Hplanned : planned host_platform layout_good_grown).
  { apply (planned_resize _ layout_good name_gralloc_manager 16384).
    - apply (planned_new _ specs_good). vm_compute. reflexivity.
    - vm_compute. reflexivity. }
  split; [exact Hplanned|].
  eexists. split; [reflexivity|].
  apply (C5_device_size host_platform layout_good_grown _ Hplanned).
  reflexivity.
Defined.

(** ** Termination of [AlignToPowerOf2] (C9) *)

Lemma least_power_of_2_zero (p : Z) : least_power_of_2 0 p -> p = 1.
Proof.
  intros (k & Hk & -> & _ & Hmin).
  specialize (Hmin 0 ltac:(lia) ltac:(cbn; lia)). change (2 ^ 0) with 1 in Hmin.
  assert (0 < 2 ^ k) by (apply Z.pow_pos_nonneg; lia). lia.
Qed.

(** C9, as stated, fails in its last part: [ResizeRegion("screen",
    0xFFFFF000)] returns [true] on the one-region layout although the
    region then ends at 2^32, beyond 2^31: the offset that reaches
    [AlignToPowerOf2] is the end offset narrowed to 32 bits, here 0. *)
Lemma C9_counterexample :
  ResizeRegion host_platform layout_single name_screen 4294963200
    = Done (true, layout_single_wrapped) /\
  exists r,
    last (regions_ layout_single_wrapped) = Some r /\
    end_offset r = 4294967296 /\
    wrap32 (end_offset r) = 0 /\
    ~ end_offset r <= 2 ^ 31.
Proof.
  split; [vm_compute; reflexivity|].
  eexists. split; [reflexivity|]. split; [reflexivity|]. split; [reflexivity|].
  unfold end_offset. cbn [begin_offset_ size_]. lia.
Qed.

(** C9 (amended): for a 32-bit input of at most 2^31 the loop of
    [AlignToPowerOf2] exits (32 evaluations of its condition are enough)
    and returns the smallest power of two that is at least the input, 1
    for input 0; for a larger input the doubled variable wraps to 0 and the
    loop does not exit, whatever the number of iterations.  Consequently
    [UpdateRegionOffsetsAndDeviceSize], with which both the constructor
    and [ResizeRegion] finish, returns exactly when the final offset, a
    [uint32_t], is at most 2^31: in every layout that was constructed or
    resized, the end offset of the last region reduced modulo 2^32 is at
    most 2^31, and so is the end offset itself when it is below 2^32. *)
Theorem C9_AlignToPowerOf2_terminates (val : Z) :
  is_uint32 val ->
  (val <= 2 ^ 31 ->
     exists p, AlignToPowerOf2 val = Some p /\
       (forall fuel, (32 <= fuel)%nat -> AlignToPowerOf2_loop fuel 1 val = Some p) /\
       least_power_of_2 val p /\
       (val = 0 -> p = 1) /\
       forall l offset index,
         snd (UpdateRegionOffsets_loop (length (regions_ l)) (regions_ l) offset index) = val ->
         exists l', UpdateRegionOffsetsAndDeviceSize l offset index = Done l' /\
                    device_size_ l' = p) /\
  (2 ^ 31 < val ->
     (forall fuel, AlignToPowerOf2_loop fuel 1 val = None) /\
     forall l offset index,
       snd (UpdateRegionOffsets_loop (length (regions_ l)) (regions_ l) offset index) = val ->
       UpdateRegionOffsetsAndDeviceSize l offset index = Stop NoReturn) /\
  (forall P l r, planned P l ->
     last (regions_ l) = Some r -> wrap32 (end_offset r) = val ->
     val <= 2 ^ 31 /\
     (end_offset r < 2 ^ 32 -> end_offset r = val /\ end_offset r <= 2 ^ 31)).
Proof.
  intros Hval. split; [|split].
  - intros Hle.
    destruct (AlignToPowerOf2_loop_least 34 val Hle ltac:(lia)) as (p & Hp & Hleast).
    exists p. split; [exact Hp|]. split.
    { intros fuel Hfuel. rewrite AlignToPowerOf2_fuel_irrelevant by exact Hfuel.
      exact Hp. }
    split; [exact Hleast|]. split.
    { intros ->. apply least_power_of_2_zero. exact Hleast. }
    intros l offset index Hfinal.
    unfold UpdateRegionOffsetsAndDeviceSize.
    destruct (UpdateRegionOffsets_loop _ _ _ _) as [regions' offset'].
    cbn in Hfinal. subst offset'.
    change (AlignToPowerOf2 val) with (AlignToPowerOf2_loop 34 1 val). rewrite Hp.
    eexists. split; reflexivity.
  - intros Hgt. split.
    + intros fuel. change 1 with (2 ^ 0). apply AlignToPowerOf2_loop_spins; lia.
    + intros l offset index Hfinal.
      unfold UpdateRegionOffsetsAndDeviceSize.
      destruct (UpdateRegionOffsets_loop _ _ _ _) as [regions' offset'].
      cbn in Hfinal. subst offset'.
      rewrite (proj2 (AlignToPowerOf2_None val)) by exact Hgt. reflexivity.
  - intros P l r Hplanned Hlast Hend.
    pose proof (planned_inv P l Hplanned) as Hinv.
    pose proof (begin_offset_aligned P l Hinv) as Hbegin.
    destruct Hinv as [_ _ Hsizes _ _ Hdevice].
    pose proof (Hdevice r Hlast) as Hdev. rewrite Hend in Hdev.
    apply AlignToPowerOf2_Some in Hdev. destruct Hdev as [Hle _].
    split; [exact Hle|].
    intros Hfit. rewrite last_lookup in Hlast.
    destruct (Hbegin _ r Hlast) as [Hb _]. destruct (Hsizes _ r Hlast) as [Hs _].
    assert (Heq : end_offset r = val).
    { rewrite <- Hend. symmetry. apply wrap32_small.
      unfold is_uint32, end_offset in *. lia. }
    split; [exact Heq|]. rewrite Heq. exact Hle.
Qed.

Lemma C9_AlignToPowerOf2_terminates_witness :
  is_uint32 5 /\ is_uint32 (2 ^ 31 + 1) /\
  (exists p, AlignToPowerOf2 5 = Some p /\ least_power_of_2 5 p) /\
  (forall fuel, AlignToPowerOf2_loop fuel 1 (2 ^ 31 + 1) = None) /\
  is_uint32 28672 /\
  planned host_platform layout_good_grown /\
  exists r,
    last (regions_ layout_good_grown) = Some r /\
    wrap32 (end_offset r) = 28672 /\
    end_offset r <= 2 ^ 31.
Proof.
  assert (H5 : is_uint32 5) by (unfold is_uint32; lia).
  assert (Hbig : is_uint32 (2 ^ 31 + 1)) by (unfold is_uint32; lia).
  assert (Hend : is_uint32 28672) by (unfold is_uint32; lia).
  assert (Hplanned : planned host_platform layout_good_grown).
  { apply (planned_resize _ layout_good name_gralloc_manager 16384).
    - apply (planned_new _ specs_good). vm_compute. reflexivity.
    - vm_compute. reflexivity. }
  split; [exact H5|]. split; [exact Hbig|]. split.
  { destruct (proj1 (C9_AlignToPowerOf2_terminates 5 H5) ltac:(lia))
      as (p & Hp & _ & Hleast & _).
    exists p. split; assumption. }
  split.
  { apply (proj1 (proj2 (C9_AlignToPowerOf2_terminates (2 ^ 31 + 1) Hbig))). lia. }
  split; [exact Hend|]. split; [exact Hplanned|].
  eexists. split; [reflexivity|]. split; [reflexivity|].
  apply (proj2 (proj2 (C9_AlignToPowerOf2_terminates 28672 Hend))
           host_platform layout_good_grown _ Hplanned eq_refl eq_refl).
  unfold end_offset. cbn [begin_offset_ size_]. lia.
Defined.

(** A resize whose final offset exceeds 2^31 does not return. *)
Lemma ResizeRegion_spins_example :
  ResizeRegion host_platform layout_single name_screen (2 ^ 31) = Stop NoReturn.
Proof. vm_compute. reflexivity. Qed.

(** ** Manager references (C1) *)

(** C1: the constructor looks [managed_by] up in the map of all region
    names, which is complete before the first region is checked.  A
    region managed by a region declared after it, or by itself, is
    accepted; only a name that no region of the list carries is fatal. *)
Theorem C1_later_or_self_manager_accepted :
  (exists l, Plan host_platform specs_manager_later = Done l) /\
  (exists l, Plan host_platform [spec_screen; spec_self_managed] = Done l) /\
  Plan host_platform
    [spec_screen; Spec name_gralloc_memory 0 0 0 (Some name_unknown)]
    = Stop LogFatal.
Proof.
  split; [eexists; vm_compute; reflexivity|].
  split; [eexists; vm_compute; reflexivity|].
  vm_compute. reflexivity.
Qed.

(** *** Which lists the constructor rejects *)

Lemma GetNameToIndexMap_from_Done (regions : list VSoCRegionLayoutImpl) :
  forall index result m,
  GetNameToIndexMap_from index regions result = Done m ->
  NoDup (name_addrs regions) /\
  (forall a, a ∈ name_addrs regions -> result !! a = None) /\
  (forall a, is_Some (m !! a) <-> is_Some (result !! a) \/ a ∈ name_addrs regions).
Proof.
  induction regions as [|region rest IH]; intros index result m Hmap; cbn in Hmap.
  - injection Hmap as <-. split; [constructor|]. split.
    + intros a Ha. apply not_elem_of_nil in Ha. destruct Ha.
    + intros a. split; [auto|]. intros [H|H]; [exact H|].
      apply not_elem_of_nil in H. destruct H.
  - destruct (result !! c_addr (region_name_ region)) eqn:Hfresh; [discriminate|].
    apply IH in Hmap. destruct Hmap as (Hnodup & Hfree & Hdom).
    cbn. split; [|split].
    + constructor; [|exact Hnodup]. intros Hin.
      specialize (Hfree _ Hin). rewrite lookup_insert_eq in Hfree. discriminate.
    + intros a Ha. apply elem_of_cons in Ha. destruct Ha as [->|Ha]; [exact Hfresh|].
      specialize (Hfree a Ha).
      destruct (decide (c_addr (region_name_ region) = a)) as [<-|Hne].
      * rewrite lookup_insert_eq in Hfree. discriminate.
      * rewrite lookup_insert_ne in Hfree by exact Hne. exact Hfree.
    + intros a. rewrite Hdom, elem_of_cons.
      destruct (decide (c_addr (region_name_ region) = a)) as [<-|Hne].
      * rewrite lookup_insert_eq. split; [intros _; right; left; reflexivity|].
        intros _. left. eauto.
      * rewrite lookup_insert_ne by exact Hne. split.
        -- intros [H|H]; [left; exact H|right; right; exact H].
        -- intros [H|[H|H]]; [left; exact H|congruence|right; exact H].
Qed.

Lemma GetNameToIndexMap_from_Stop (regions : list VSoCRegionLayoutImpl) :
  forall index result f,
  GetNameToIndexMap_from index regions result = Stop f ->
  f = LogFatal /\
  ~ (NoDup (name_addrs regions) /\
     forall a, a ∈ name_addrs regions -> result !! a = None).
Proof.
  induction regions as [|region rest IH]; intros index result f Hmap; cbn in Hmap.
  - discriminate.
  - destruct (result !! c_addr (region_name_ region)) eqn:Hfresh.
    + injection Hmap as <-. split; [reflexivity|]. intros [_ Hfree].
      rewrite Hfree in Hfresh; [discriminate|]. cbn. apply elem_of_cons. left. reflexivity.
    + apply IH in Hmap. destruct Hmap as [-> Hnot]. split; [reflexivity|].
      intros [Hnodup Hfree]. apply Hnot. cbn in Hnodup. apply NoDup_cons in Hnodup.
      destruct Hnodup as [Hnotin Hnodup]. split; [exact Hnodup|].
      intros a Ha. rewrite lookup_insert_ne.
      * apply Hfree. cbn. apply elem_of_cons. right. exact Ha.
      * intros <-. apply Hnotin. exact Ha.
Qed.

Lemma check_managed_by_cases (m : gmap Z nat) (regions : list VSoCRegionLayoutImpl) :
  (check_managed_by m regions = Done tt /\
   forall r manager, r ∈ regions -> managed_by_ r = Some manager ->
     is_Some (m !! c_addr manager)) \/
  (check_managed_by m regions = Stop LogFatal /\
   exists r manager, r ∈ regions /\ managed_by_ r = Some manager /\
     m !! c_addr manager = None).
Proof.
  induction regions as [|region rest IH]; cbn.
  - left. split; [reflexivity|]. intros r manager Hr. apply not_elem_of_nil in Hr. destruct Hr.
  - destruct (managed_by_ region) as [manager|] eqn:Hmgr.
    + destruct (m !! c_addr manager) as [idx|] eqn:Hidx.
      * destruct IH as [[-> Hall]|[-> (r & mg & Hr & Hm & Hnone)]].
        -- left. split; [reflexivity|]. intros r mg Hr Hm.
           apply elem_of_cons in Hr. destruct Hr as [->|Hr]; [|eapply Hall; eassumption].
           rewrite Hmgr in Hm. injection Hm as <-. eauto.
        -- right. split; [reflexivity|]. exists r, mg. repeat split; try assumption.
           apply elem_of_cons. right. exact Hr.
      * right. split; [reflexivity|]. exists region, manager.
        repeat split; try assumption. apply elem_of_cons. left. reflexivity.
    + destruct IH as [[-> Hall]|[-> (r & mg & Hr & Hm & Hnone)]].
      * left. split; [reflexivity|]. intros r mg Hr Hm.
        apply elem_of_cons in Hr. destruct Hr as [->|Hr]; [congruence|].
        eapply Hall; eassumption.
      * right. split; [reflexivity|]. exists r, mg. repeat split; try assumption.
        apply elem_of_cons. right. exact Hr.
Qed.

Lemma UpdateRegionOffsetsAndDeviceSize_not_fatal (l : VSoCMemoryLayoutImpl)
    (offset : Z) (index : nat) :
  UpdateRegionOffsetsAndDeviceSize l offset index <> Stop LogFatal.
Proof.
  unfold UpdateRegionOffsetsAndDeviceSize.
  destruct (UpdateRegionOffsets_loop _ _ _ _) as [regions' offset'].
  destruct (AlignToPowerOf2 offset'); discriminate.
Qed.

(** The constructor is fatal exactly when two regions share a name or
    some [managed_by] is the name of no region of the list; where in the
    list the manager stands plays no part. *)
Lemma new_VSoCMemoryLayoutImpl_fatal_iff (P : platform)
    (regions : list VSoCRegionLayoutImpl) :
  new_VSoCMemoryLayoutImpl P regions <> Stop LogFatal <->
  NoDup (name_addrs regions) /\
  forall r manager, r ∈ regions -> managed_by_ r = Some manager ->
    c_addr manager ∈ name_addrs regions.
Proof.
  unfold new_VSoCMemoryLayoutImpl.
  destruct (GetNameToIndexMap regions) as [m|f] eqn:Hmap; cbn [mbind outcome_bind].
  - apply GetNameToIndexMap_from_Done in Hmap. destruct Hmap as (Hnodup & _ & Hdom).
    assert (Hin : forall a, is_Some (m !! a) <-> a ∈ name_addrs regions).
    { intros a. rewrite Hdom. split; [|auto].
      intros [[x Hx]|H]; [rewrite lookup_empty in Hx; discriminate|exact H]. }
    destruct (check_managed_by_cases m regions)
      as [[-> Hall]|[-> (r & manager & Hr & Hm & Hnone)]]; cbn [mbind outcome_bind].
    + split.
      * intros _. split; [exact Hnodup|]. intros r manager Hr Hm.
        apply Hin. eapply Hall; eassumption.
      * intros _. apply UpdateRegionOffsetsAndDeviceSize_not_fatal.
    + split; [congruence|]. intros [_ Hall]. exfalso.
      specialize (Hall r manager Hr Hm). apply Hin in Hall.
      rewrite Hnone in Hall. destruct Hall; discriminate.
  - apply GetNameToIndexMap_from_Stop in Hmap. destruct Hmap as [-> Hnot].
    split; [congruence|]. intros [Hnodup _]. exfalso. apply Hnot.
    split; [exact Hnodup|]. intros a _. apply lookup_empty.
Qed.

(** ** Serialisation (C6) *)

Lemma signal_tables_end (g h : Z) :
  snd (WriteSignalTableDescription (snd (WriteSignalTableDescription 0 g)) h)
  = wrap32 (wrap32 (wrap32 (0 + shl1 g * sizeof_uint32) + shl1 h * sizeof_uint32)
            + 2 * sizeof_uint32).
Proof.
  cbn [WriteSignalTableDescription snd].
  repeat (rewrite wrap32_add_l || rewrite <- Z.add_assoc).
  f_equal. unfold sizeof_uint32. lia.
Qed.

(** The "double check" of [WriteRegionDescription] never fires: the two
    signal tables end exactly where the region data starts. *)
Lemma WriteRegionDescription_Done (P : platform) (previous : Z)
    (r : VSoCRegionLayoutImpl) :
  exists d, WriteRegionDescription P previous r = Done d /\
    current_version d = 0 /\
    min_compatible_version d = 0 /\
    region_begin_offset d = begin_offset_ r /\
    region_end_offset d = wrap32 (begin_offset_ r + size_ r) /\
    offset_of_region_data d = GetOffsetOfRegionData r /\
    device_name d = strncpy (c_chars (region_name_ r)) (VSOC_DEVICE_NAME_SZ P - 1) /\
    num_nodes_lg2 (guest_to_host_signal_table d)
      = guest_to_host_signal_table_log_size_ r /\
    num_nodes_lg2 (host_to_guest_signal_table d)
      = host_to_guest_signal_table_log_size_ r.
Proof.
  pose proof (signal_tables_end (guest_to_host_signal_table_log_size_ r)
                (host_to_guest_signal_table_log_size_ r)) as Hend.
  unfold WriteRegionDescription.
  destruct (WriteSignalTableDescription 0 (guest_to_host_signal_table_log_size_ r))
    as [g2h o1] eqn:Hg.
  destruct (WriteSignalTableDescription o1 (host_to_guest_signal_table_log_size_ r))
    as [h2g o2] eqn:Hh.
  cbn [snd] in Hend. rewrite Hh in Hend. cbn [snd] in Hend.
  cbn [offset_of_region_data].
  assert (Hfit : (o2 >? GetOffsetOfRegionData r) = false).
  { unfold GetOffsetOfRegionData. rewrite <- Hend. rewrite Z.gtb_ltb. apply Z.ltb_irrefl. }
  rewrite Hfit. eexists. split; [reflexivity|]. cbn.
  unfold WriteSignalTableDescription in Hg, Hh.
  injection Hg as <- _. injection Hh as <- _.
  repeat split.
Qed.

Lemma WriteLayout_region_spec (P : platform) (m : gmap Z nat)
    (r : VSoCRegionLayoutImpl) :
  (forall manager, managed_by_ r = Some manager -> is_Some (m !! c_addr manager)) ->
  (exists manager manager_idx,
     managed_by_ r = Some manager /\ m !! c_addr manager = Some manager_idx /\
     Z.of_nat manager_idx = VSOC_REGION_WHOLE P /\
     WriteLayout_region P m r = Stop LogFatal) \/
  (exists d, WriteLayout_region P m r = Done d /\
     region_begin_offset d = begin_offset_ r /\
     region_end_offset d = wrap32 (begin_offset_ r + size_ r) /\
     offset_of_region_data d = GetOffsetOfRegionData r /\
     (managed_by_ r = None -> managed_by d = VSOC_REGION_WHOLE P) /\
     (forall manager manager_idx, managed_by_ r = Some manager ->
        m !! c_addr manager = Some manager_idx ->
        managed_by d = Z.of_nat manager_idx /\
        Z.of_nat manager_idx <> VSOC_REGION_WHOLE P)).
Proof.
  intros Hknown. unfold WriteLayout_region.
  destruct (WriteRegionDescription_Done P 0 r)
    as (d & -> & _ & _ & Hb & He & Ho & _).
  cbn [mbind outcome_bind].
  destruct (managed_by_ r) as [manager|].
  - destruct (Hknown manager eq_refl) as [manager_idx Hidx]. rewrite Hidx.
    destruct (Z.eqb_spec (Z.of_nat manager_idx) (VSOC_REGION_WHOLE P)) as [Heq|Hne].
    + left. exists manager, manager_idx. repeat split; assumption.
    + right. eexists. split; [reflexivity|]. cbn.
      split; [exact Hb|]. split; [exact He|]. split; [exact Ho|].
      split; [discriminate|].
      intros manager' idx' [= <-] Hidx'. split; congruence.
  - right. eexists. split; [reflexivity|]. cbn.
    split; [exact Hb|]. split; [exact He|]. split; [exact Ho|].
    split; [reflexivity|]. intros manager idx [=].
Qed.

Lemma WriteLayout_loop_spec (P : platform) (m : gmap Z nat)
    (regions : list VSoCRegionLayoutImpl) :
  (forall i r manager, regions !! i = Some r -> managed_by_ r = Some manager ->
     is_Some (m !! c_addr manager)) ->
  ((exists i r manager manager_idx,
      regions !! i = Some r /\ managed_by_ r = Some manager /\
      m !! c_addr manager = Some manager_idx /\
      Z.of_nat manager_idx = VSOC_REGION_WHOLE P) /\
   WriteLayout_loop P m regions = Stop LogFatal) \/
  ((forall i r manager manager_idx,
      regions !! i = Some r -> managed_by_ r = Some manager ->
      m !! c_addr manager = Some manager_idx ->
      Z.of_nat manager_idx <> VSOC_REGION_WHOLE P) /\
   exists descs, WriteLayout_loop P m regions = Done descs /\
     length descs = length regions /\
     forall i r, regions !! i = Some r ->
       exists d, descs !! i = Some d /\
         WriteLayout_region P m r = Done d).
Proof.
  induction regions as [|region rest IH]; intros Hknown.
  - right. split.
    + intros i r manager idx Hr. rewrite lookup_nil in Hr. discriminate.
    + exists []. repeat split. intros i r Hr. rewrite lookup_nil in Hr. discriminate.
  - cbn [WriteLayout_loop].
    destruct (WriteLayout_region_spec P m region
                (fun manager => Hknown 0%nat region manager eq_refl))
      as [(manager & idx & Hmgr & Hidx & Hwhole & ->)
         |(d & Hd & _ & _ & _ & _ & Hsome)].
    + left. split; [|reflexivity].
      exists 0%nat, region, manager, idx. repeat split; assumption.
    + rewrite Hd. cbn [mbind outcome_bind].
      destruct IH as [[(i & r & manager & idx & Hr & Hmgr & Hidx & Hwhole) ->]
                     |[Hnone (descs & -> & Hlen & Hdescs)]].
      { intros i r manager Hr. apply (Hknown (S i) r manager). exact Hr. }
      * left. split; [|reflexivity].
        exists (S i), r, manager, idx. repeat split; assumption.
      * right. split.
        -- intros [|i] r manager idx Hr Hmgr Hidx; cbn in Hr.
           ++ injection Hr as <-. apply (Hsome manager idx Hmgr Hidx).
           ++ apply (Hnone i r manager idx Hr Hmgr Hidx).
        -- eexists. split; [reflexivity|]. split; [cbn; lia|].
           intros [|i] r Hr; cbn in Hr.
           ++ injection Hr as <-. exists d. split; [reflexivity|exact Hd].
           ++ apply (Hdescs i r Hr).
Qed.

(** C6, as stated, fails: on the one-region layout whose region was
    resized to 0xFFFFF000, the region begins at 4096 and is 0xFFFFF000
    bytes long, and the end offset that [WriteLayout] stores in its
    descriptor is 0, not 2^32. *)
Lemma C6_counterexample :
  planned host_platform layout_single_wrapped /\
  exists mem r d,
    WriteLayout host_platform layout_single_wrapped = Done mem /\
    regions_ layout_single_wrapped !! 0%nat = Some r /\
    region_descriptions mem !! 0%nat = Some d /\
    begin_offset_ r + size_ r = 4294967296 /\
    region_end_offset d = 0 /\
    region_end_offset d <> begin_offset_ r + size_ r.
Proof.
  split; [exact layout_single_wrapped_planned|].
  eexists _, _, _. split; [vm_compute; reflexivity|].
  split; [reflexivity|]. split; [reflexivity|].
  cbn. repeat split; lia.
Qed.

(** C6 (amended): for a layout that was constructed (and possibly
    resized), [WriteLayout] aborts when some region's manager sits at the
    index that [VSOC_REGION_WHOLE] reserves; otherwise it writes the header
    (major and minor version, device size, region count, descriptor-table
    offset equal to the header size) and one descriptor per region, in the
    order of the regions, with the region's begin offset, as end offset the
    begin offset plus the region size reduced modulo 2^32 (the sum itself
    whenever it is below 2^32), the signal-table overhead as data offset,
    and in [managed_by] the index of the manager region, or
    [VSOC_REGION_WHOLE] when the region has no manager. *)
Theorem C6_WriteLayout (P : platform) (l : VSoCMemoryLayoutImpl) :
  planned P l ->
  (manager_is_whole P l -> WriteLayout P l = Stop LogFatal) /\
  (~ manager_is_whole P l ->
   exists mem, WriteLayout P l = Done mem /\
     major_version (header mem) = CURRENT_VSOC_LAYOUT_MAJOR_VERSION /\
     minor_version (header mem) = CURRENT_VSOC_LAYOUT_MINOR_VERSION P /\
     size (header mem) = GetMemoryFileSize l /\
     region_count (header mem) = Z.of_nat (length (regions_ l)) /\
     vsoc_region_desc_offset (header mem) = sizeof_vsoc_shm_layout_descriptor P /\
     length (region_descriptions mem) = length (regions_ l) /\
     forall i r, regions_ l !! i = Some r ->
       exists d, region_descriptions mem !! i = Some d /\
         region_begin_offset d = begin_offset_ r /\
         region_end_offset d = (begin_offset_ r + size_ r) mod 2 ^ 32 /\
         (begin_offset_ r + size_ r < 2 ^ 32 ->
          region_end_offset d = begin_offset_ r + size_ r) /\
         offset_of_region_data d = GetOffsetOfRegionData r /\
         (managed_by_ r = None -> managed_by d = VSOC_REGION_WHOLE P) /\
         (forall manager, managed_by_ r = Some manager ->
            exists manager_idx manager_region,
              regions_ l !! manager_idx = Some manager_region /\
              c_addr (region_name_ manager_region) = c_addr manager /\
              managed_by d = Z.of_nat manager_idx /\
              managed_by d <> VSOC_REGION_WHOLE P)).
Proof.
  intros Hplanned.
  pose proof (planned_inv P l Hplanned) as Hinv.
  pose proof (begin_offset_aligned P l Hinv) as Hbegin.
  destruct Hinv as [Hnames Hmgrs Hsizes _ _ _].
  unfold WriteLayout.
  destruct (WriteLayout_loop_spec P (region_idx_by_name_ l) (regions_ l) Hmgrs)
    as [[Hwhole ->]|[Hnone (descs & -> & Hlen & Hdescs)]].
  - split; [reflexivity|]. intros Hnot. exfalso. apply Hnot. exact Hwhole.
  - split.
    { intros (i & r & manager & idx & Hr & Hmgr & Hidx & Hw).
      exfalso. apply (Hnone i r manager idx Hr Hmgr Hidx Hw). }
    intros _. cbn [mbind outcome_bind]. eexists. split; [reflexivity|].
    cbn [header region_descriptions major_version minor_version size region_count
         vsoc_region_desc_offset].
    do 5 (split; [reflexivity|]). split; [exact Hlen|].
    intros i r Hr. destruct (Hdescs i r Hr) as (d & Hd & Hwrite).
    exists d. split; [exact Hd|].
    destruct (WriteLayout_region_spec P (region_idx_by_name_ l) r
                (fun manager => Hmgrs i r manager Hr))
      as [(manager & idx & _ & _ & _ & Hfatal)
         |(d' & Hd' & Hb & He & Ho & Hno & Hsome)].
    { rewrite Hfatal in Hwrite. discriminate. }
    rewrite Hd' in Hwrite. injection Hwrite as ->.
    split; [exact Hb|]. split; [exact He|]. split.
    { intros Hfit. rewrite He. apply wrap32_small.
      destruct (Hbegin i r Hr) as [Hb32 _]. destruct (Hsizes i r Hr) as [Hs32 _].
      unfold is_uint32 in *. lia. }
    split; [exact Ho|]. split; [exact Hno|].
    intros manager Hmgr.
    destruct (Hmgrs i r manager Hr Hmgr) as [idx Hidx].
    destruct (Hnames _ _ Hidx) as (manager_region & Hmr & Haddr).
    destruct (Hsome manager idx Hmgr Hidx) as [Hfield Hne].
    exists idx, manager_region.
    split; [exact Hmr|]. split; [exact Haddr|]. split; [exact Hfield|].
    rewrite Hfield. exact Hne.
Qed.

Lemma layout_manager_first_planned : planned host_platform layout_manager_first.
Proof. apply (planned_new _ specs_manager_first). vm_compute. reflexivity. Qed.

Lemma layout_manager_first_whole : manager_is_whole host_platform layout_manager_first.
Proof.
  exists 1%nat. eexists _, _, _.
  split; [reflexivity|]. split; [reflexivity|].
  split; [vm_compute; reflexivity|]. reflexivity.
Qed.

Lemma layout_good_not_whole : ~ manager_is_whole host_platform layout_good.
Proof.
  intros (i & r & manager & idx & Hr & Hmgr & Hidx & Hw).
  destruct i as [|[|[|i]]]; cbn in Hr; try discriminate;
    injection Hr as <-; cbn in Hmgr; try discriminate.
  injection Hmgr as <-. vm_compute in Hidx. injection Hidx as <-.
  discriminate Hw.
Qed.

Lemma C6_WriteLayout_witness :
  planned host_platform layout_manager_first /\
  manager_is_whole host_platform layout_manager_first /\
  WriteLayout host_platform layout_manager_first = Stop LogFatal /\
  planned host_platform layout_good /\
  ~ manager_is_whole host_platform layout_good /\
  exists mem, WriteLayout host_platform layout_good = Done mem /\
    size (header mem) = 32768 /\
    region_count (header mem) = 3 /\
    region_end_offset <$> region_descriptions mem = [8192; 16384; 20480] /\
    managed_by <$> region_descriptions mem = [0; 0; 1].
Proof.
  assert (Hfirst : planned host_platform layout_manager_first).
  { apply (planned_new _ specs_manager_first). vm_compute. reflexivity. }
  assert (Hgood : planned host_platform layout_good).
  { apply (planned_new _ specs_good). vm_compute. reflexivity. }
  split; [exact Hfirst|].
  split; [exact layout_manager_first_whole|]. split.
  { apply (proj1 (C6_WriteLayout host_platform layout_manager_first Hfirst)).
    exact layout_manager_first_whole. }
  split; [exact Hgood|]. split; [exact layout_good_not_whole|].
  destruct (proj2 (C6_WriteLayout host_platform layout_good Hgood)
              layout_good_not_whole) as (mem & Hmem & _).
  exists mem. split; [exact Hmem|].
  vm_compute in Hmem. injection Hmem as <-.
  repeat split.
Defined.

(** ** [SocketSender::SendAll] *)

Lemma Send_nothing (net : nat -> Z) (socket_ : SharedFD) (buf : list byte) :
  net (send_calls socket_) <= 0 ->
  Send net socket_ buf = (net (send_calls socket_), after_empty_send socket_).
Proof.
  intros Hr. unfold Send, after_empty_send.
  destruct (Z.leb_spec (net (send_calls socket_)) 0); [|lia].
  f_equal. f_equal.
  replace (Z.to_nat (net (send_calls socket_))) with 0%nat by lia.
  rewrite take_0. apply app_nil_r.
Qed.

Lemma Send_some (net : nat -> Z) (socket_ : SharedFD) (buf : list byte) :
  0 < net (send_calls socket_) ->
  exists just_written socket',
    Send net socket_ buf = (just_written, socket') /\
    just_written = Z.min (net (send_calls socket_)) (Z.of_nat (length buf)) /\
    sent socket' = sent socket_ ++ take (Z.to_nat just_written) buf /\
    IsOpen socket' = IsOpen socket_ /\
    shut_wr socket' = shut_wr socket_ /\
    send_calls socket' = S (send_calls socket_).
Proof.
  intros Hr. unfold Send.
  destruct (Z.leb_spec (net (send_calls socket_)) 0); [lia|].
  eexists _, _. repeat split.
Qed.

(** [SendAll] always returns.  [delivered] is the number of payload bytes
    that reached the socket: all of them when the result is the payload
    length, fewer when the result is zero or negative. *)
Lemma SendAll_loop_spec (net : nat -> Z) (packet : Packet) (steps : nat) :
  forall (socket_ : SharedFD) (written : Z),
  0 <= written <= payload_length packet ->
  payload_length packet - written <= Z.of_nat steps ->
  exists result socket' delivered,
    SendAll_loop steps net socket_ packet written = Some (result, socket') /\
    written <= delivered <= payload_length packet /\
    sent socket' = sent socket_
      ++ take (Z.to_nat (delivered - written)) (drop (Z.to_nat written) (payload packet)) /\
    IsOpen socket' = IsOpen socket_ /\
    shut_wr socket' = shut_wr socket_ /\
    ((result = payload_length packet /\ delivered = payload_length packet) \/
     (result <= 0 /\ delivered < payload_length packet /\
      ((IsOpen socket_ = false /\ result = -1) \/ exists n, net n = result))).
Proof.
  induction steps as [|steps IH]; intros socket_ written Hw Hsteps.
  - cbn [SendAll_loop].
    destruct (Z.ltb_spec written (payload_length packet)); [lia|].
    exists written, socket_, written. split; [reflexivity|].
    split; [lia|]. rewrite Z.sub_diag, take_0, app_nil_r.
    repeat split. left. lia.
  - cbn [SendAll_loop].
    destruct (Z.ltb_spec written (payload_length packet)) as [Hlt|Hge].
    2:{ exists written, socket_, written. split; [reflexivity|].
        split; [lia|]. rewrite Z.sub_diag, take_0, app_nil_r.
        repeat split. left. lia. }
    destruct (IsOpen socket_) eqn:Hopen; cbn [negb].
    2:{ exists (-1), socket_, written. split; [reflexivity|].
        split; [lia|]. rewrite Z.sub_diag, take_0, app_nil_r.
        repeat split; try assumption. right.
        split; [lia|]. split; [lia|]. left. split; reflexivity. }
    set (buf := drop (Z.to_nat written) (payload packet)).
    assert (Hbuf : Z.of_nat (length buf) = payload_length packet - written).
    { subst buf. rewrite length_drop. unfold payload_length in *. lia. }
    destruct (Z.le_gt_cases (net (send_calls socket_)) 0) as [Hzero|Hpos].
    + rewrite (Send_nothing net socket_ buf Hzero).
      destruct (Z.leb_spec (net (send_calls socket_)) 0); [|lia].
      exists (net (send_calls socket_)), (after_empty_send socket_), written.
      split; [reflexivity|]. split; [lia|].
      rewrite Z.sub_diag, take_0, app_nil_r.
      repeat split; try assumption. right.
      split; [lia|]. split; [lia|]. right. eexists. reflexivity.
    + destruct (Send_some net socket_ buf ltac:(lia))
        as (jw & s1 & -> & Hjw & Hsent & Hopen1 & Hshut1 & _).
      destruct (Z.leb_spec jw 0); [lia|].
      destruct (IH s1 (written + jw)) as (result & s' & delivered & -> & Hd & Hsent' & Hopen' & Hshut' & Hcase);
        try lia.
      exists result, s', delivered. split; [reflexivity|].
      split; [lia|]. split.
      { rewrite Hsent', Hsent, <- app_assoc. f_equal.
        replace (Z.to_nat (written + jw)) with (Z.to_nat written + Z.to_nat jw)%nat by lia.
        rewrite <- drop_drop. fold buf. rewrite take_take_drop. f_equal. lia. }
      split; [congruence|]. split; [congruence|].
      destruct Hcase as [Hok|(Hr & Hdl & Hwhy)]; [left; exact Hok|right].
      split; [exact Hr|]. split; [exact Hdl|].
      destruct Hwhy as [[Hclosed Hminus]|Hn]; [|right; exact Hn].
      left. split; congruence.
Qed.

Lemma SendAll_spec (net : nat -> Z) (socket_ : SharedFD) (packet : Packet) :
  exists result socket' delivered,
    SendAll net socket_ packet = Some (result, socket') /\
    0 <= delivered <= payload_length packet /\
    sent socket' = sent socket_ ++ take (Z.to_nat delivered) (payload packet) /\
    IsOpen socket' = IsOpen socket_ /\
    shut_wr socket' = shut_wr socket_ /\
    ((result = payload_length packet /\ delivered = payload_length packet) \/
     (result <= 0 /\ delivered < payload_length packet /\
      ((IsOpen socket_ = false /\ result = -1) \/ exists n, net n = result))).
Proof.
  unfold SendAll.
  destruct (SendAll_loop_spec net packet (length (payload packet)) socket_ 0)
    as (result & s' & delivered & Hres & Hd & Hsent & Hrest);
    try (unfold payload_length; lia).
  exists result, s', delivered. split; [exact Hres|]. split; [exact Hd|].
  rewrite Z.sub_0_r in Hsent. cbn [Z.to_nat] in Hsent. rewrite drop_0 in Hsent.
  split; [exact Hsent|exact Hrest].
Qed.

(** [SendAll] returns: the step bound is never what ends the loop. *)
Lemma SendAll_returns (net : nat -> Z) (socket_ : SharedFD) (packet : Packet) :
  exists result socket', SendAll net socket_ packet = Some (result, socket').
Proof.
  destruct (SendAll_spec net socket_ packet) as (result & s' & _ & H & _).
  exists result, s'. exact H.
Qed.

(** ** The channel-to-socket loop *)

Lemma ShmToSocket_end_of_stream (net : nat -> Z) (socket_sender : SharedFD)
    (packet : Packet) (rest : list Packet) :
  IsEnd packet = true ->
  ShmToSocket net socket_sender (packet :: rest)
    = Some (Exited, Shutdown_WR socket_sender).
Proof. intros Hend. unfold ShmToSocket. cbn. rewrite Hend. reflexivity. Qed.

Lemma ShmToSocket_exit_shuts_down (net : nat -> Z) (socket_sender socket' : SharedFD)
    (received : list Packet) :
  ShmToSocket net socket_sender received = Some (Exited, socket') ->
  shut_wr socket' = true.
Proof.
  unfold ShmToSocket.
  destruct (ShmToSocket_loop net socket_sender received) as [[[] s]|];
    intros [= <-]; reflexivity.
Qed.

Lemma ShmToSocket_error_stops (net : nat -> Z) (socket_sender socket' : SharedFD)
    (packet : Packet) (rest : list Packet) (result : Z) :
  IsEnd packet = false ->
  SendAll net socket_sender packet = Some (result, socket') ->
  result < 0 ->
  ShmToSocket net socket_sender (packet :: rest) = Some (Exited, Shutdown_WR socket').
Proof.
  intros Hdata Hsend Hneg. unfold ShmToSocket. cbn. rewrite Hdata, Hsend.
  destruct (Z.ltb_spec result 0); [reflexivity|lia].
Qed.

(** When every [Send] takes at least one byte, [SendAll] writes the whole
    payload, in order. *)
Lemma SendAll_all_positive (net : nat -> Z) (socket_ : SharedFD) (packet : Packet) :
  (forall n, 0 < net n) ->
  IsOpen socket_ = true ->
  exists socket',
    SendAll net socket_ packet = Some (payload_length packet, socket') /\
    sent socket' = sent socket_ ++ payload packet /\
    IsOpen socket' = true /\
    shut_wr socket' = shut_wr socket_.
Proof.
  intros Hnet Hopen.
  destruct (SendAll_spec net socket_ packet)
    as (result & s' & delivered & Hres & Hd & Hsent & Hopen' & Hshut & Hcase).
  destruct Hcase as [[-> ->]|(Hr & _ & [[Hclosed _]|[n Hn]])].
  - exists s'. split; [exact Hres|]. split.
    + rewrite Hsent. f_equal. apply take_ge. unfold payload_length. lia.
    + split; congruence.
  - congruence.
  - specialize (Hnet n). lia.
Qed.

(** The part of C7 that holds: with a socket that is open and on which
    every [Send] takes at least one byte, the payloads of the packets that
    precede the first end-of-stream packet are written in full and in
    order, then the loop is left and the send side is shut down. *)
Lemma ShmToSocket_forwards (net : nat -> Z) (data : list Packet) :
  forall (socket_sender : SharedFD) (last_packet : Packet) (rest : list Packet),
  (forall n, 0 < net n) ->
  IsOpen socket_sender = true ->
  Forall (fun packet => IsEnd packet = false) data ->
  IsEnd last_packet = true ->
  exists socket',
    ShmToSocket net socket_sender (data ++ last_packet :: rest) = Some (Exited, socket') /\
    sent socket' = sent socket_sender ++ concat (payload <$> data) /\
    shut_wr socket' = true.
Proof.
  induction data as [|packet data IH]; intros s eos rest Hnet Hopen Hdata Hend.
  - cbn [app]. rewrite ShmToSocket_end_of_stream by exact Hend.
    eexists. split; [reflexivity|]. cbn. rewrite app_nil_r. split; reflexivity.
  - apply Forall_cons in Hdata. destruct Hdata as [Hpacket Hdata].
    destruct (SendAll_all_positive net s packet Hnet Hopen)
      as (s1 & Hsend & Hsent & Hopen1 & _).
    destruct (IH s1 eos rest Hnet Hopen1 Hdata Hend) as (s' & Hrun & Hsent' & Hshut).
    exists s'. split.
    + unfold ShmToSocket in *. cbn [app ShmToSocket_loop].
      rewrite Hpacket, Hsend.
      destruct (Z.ltb_spec (payload_length packet) 0);
        [unfold payload_length in *; lia|].
      exact Hrun.
    + split; [|exact Hshut].
      rewrite Hsent', Hsent. cbn. rewrite app_assoc. reflexivity.
Qed.

(** Partial writes are retried: one byte per [Send], four calls, then
    the end-of-stream packet stops the loop and shuts the send side down. *)
Example ShmToSocket_one_byte_at_a_time :
  ShmToSocket net_one_byte fresh_socket [packet_ab; packet_cd; packet_end]
    = Some (Exited,
            {| IsOpen := true; sent := bytes_ab ++ bytes_cd; shut_wr := true;
               send_calls := 4 |}).
Proof. reflexivity. Qed.

(** A negative [Send] stops the loop: the second packet is not touched. *)
Example ShmToSocket_send_error :
  ShmToSocket net_error_second fresh_socket [packet_ab; packet_cd]
    = Some (Exited,
            {| IsOpen := true; sent := [Byte.x61]; shut_wr := true;
               send_calls := 2 |}).
Proof. reflexivity. Qed.

(** C7: what the loop does when a [Send] returns 0.  The first packet's
    payload never reaches the socket, yet the loop is not left: it goes
    on to the second packet, writes it, and waits for a third. *)
Theorem C7_zero_send_loses_payload :
  SendAll net_zero_first fresh_socket packet_ab
    = Some (0, after_empty_send fresh_socket) /\
  ShmToSocket net_zero_first fresh_socket [packet_ab; packet_cd]
    = Some (Receiving,
            {| IsOpen := true; sent := bytes_cd; shut_wr := false; send_calls := 2 |}).
Proof. split; reflexivity. Qed.

(** ** A [Send] that returns 0 (C10) *)

(** The loop handles every finite run of packets to an end. *)
Lemma ShmToSocket_loop_returns (net : nat -> Z) (received : list Packet) :
  forall socket_sender,
  exists status socket',
    ShmToSocket_loop net socket_sender received = Some (status, socket').
Proof.
  induction received as [|packet rest IH]; intros s.
  - exists Receiving, s. reflexivity.
  - cbn [ShmToSocket_loop]. destruct (IsEnd packet).
    + exists Exited, s. reflexivity.
    + destruct (SendAll_returns net s packet) as (result & s1 & ->).
      destruct (result <? 0).
      * exists Exited, s1. reflexivity.
      * apply IH.
Qed.

(** C10: when a [Send] returns 0 while payload bytes are still to be
    written, [SendAll] returns 0 at once.  Whenever [SendAll] returns 0
    for a packet with a non-empty payload, fewer bytes than the payload
    holds have reached the socket and the send side is not shut down; the
    channel-to-socket loop is not left: after this packet it is back
    receiving, it hands a following data packet to [SendAll] on the socket
    as this packet left it, it stops at a following end-of-stream packet,
    and on any run of further packets it ends as it would have ended on
    them alone. *)
Theorem C10_zero_send_continues (net : nat -> Z) (packet : Packet) :
  IsEnd packet = false ->
  (forall steps socket_ written,
     IsOpen socket_ = true ->
     0 <= written < payload_length packet ->
     net (send_calls socket_) = 0 ->
     SendAll_loop (S steps) net socket_ packet written
       = Some (0, after_empty_send socket_)) /\
  (forall socket_ socket',
     0 < payload_length packet ->
     SendAll net socket_ packet = Some (0, socket') ->
     (exists delivered, 0 <= delivered < payload_length packet /\
        sent socket' = sent socket_ ++ take (Z.to_nat delivered) (payload packet)) /\
     shut_wr socket' = shut_wr socket_ /\
     ShmToSocket net socket_ [packet] = Some (Receiving, socket') /\
     (forall next, IsEnd next = false ->
        exists result socket'',
          SendAll net socket' next = Some (result, socket'') /\
          ShmToSocket_loop net socket_ [packet; next]
            = Some (if result <? 0 then Exited else Receiving, socket'')) /\
     (forall next rest, IsEnd next = true ->
        ShmToSocket net socket_ (packet :: next :: rest)
          = Some (Exited, Shutdown_WR socket')) /\
     (forall rest, exists status socket'',
        ShmToSocket_loop net socket' rest = Some (status, socket'') /\
        ShmToSocket_loop net socket_ (packet :: rest) = Some (status, socket''))).
Proof.
  intros Hdata. split.
  - intros steps s written Hopen Hw Hzero. cbn [SendAll_loop].
    destruct (Z.ltb_spec written (payload_length packet)); [|lia].
    rewrite Hopen. cbn [negb].
    rewrite Send_nothing by lia. rewrite Hzero. reflexivity.
  - intros s s' Hlen Hsend.
    assert (Hstep : forall rest,
              ShmToSocket_loop net s (packet :: rest) = ShmToSocket_loop net s' rest).
    { intros rest. cbn [ShmToSocket_loop]. rewrite Hdata, Hsend. reflexivity. }
    destruct (SendAll_spec net s packet)
      as (result & s1 & delivered & Hres & Hd & Hsent & _ & Hshut & Hcase).
    rewrite Hsend in Hres. injection Hres as <- <-.
    split.
    { exists delivered. split; [|exact Hsent].
      destruct Hcase as [[Hzero _]|(_ & Hlt & _)]; lia. }
    split; [exact Hshut|]. split.
    { unfold ShmToSocket. rewrite Hstep. reflexivity. }
    split.
    { intros next Hnext.
      destruct (SendAll_returns net s' next) as (result & s'' & Hnextsend).
      exists result, s''. split; [exact Hnextsend|].
      rewrite Hstep. cbn [ShmToSocket_loop]. rewrite Hnext, Hnextsend.
      destruct (result <? 0); reflexivity. }
    split.
    { intros next rest Hnext. unfold ShmToSocket. rewrite Hstep.
      cbn [ShmToSocket_loop]. rewrite Hnext. reflexivity. }
    intros rest.
    destruct (ShmToSocket_loop_returns net rest s') as (status & s'' & Hrest).
    exists status, s''. split; [exact Hrest|]. rewrite Hstep. exact Hrest.
Qed.

Lemma C10_zero_send_continues_witness :
  IsEnd packet_ab = false /\
  SendAll net_zero_first fresh_socket packet_ab
    = Some (0, after_empty_send fresh_socket) /\
  ShmToSocket net_zero_first fresh_socket [packet_ab]
    = Some (Receiving, after_empty_send fresh_socket) /\
  ShmToSocket_loop net_zero_first fresh_socket [packet_ab; packet_cd]
    = Some (Receiving,
            {| IsOpen := true; sent := bytes_cd; shut_wr := false; send_calls := 2 |}) /\
  ShmToSocket net_zero_first fresh_socket [packet_ab; packet_end; packet_cd]
    = Some (Exited, Shutdown_WR (after_empty_send fresh_socket)).
Proof.
  assert (Hdata : IsEnd packet_ab = false) by reflexivity.
  assert (Hsend : SendAll net_zero_first fresh_socket packet_ab
                  = Some (0, after_empty_send fresh_socket)).
  { apply (proj1 (C10_zero_send_continues net_zero_first packet_ab Hdata)
             1%nat fresh_socket 0);
      [reflexivity|change (0 <= 0 < 2); lia|reflexivity]. }
  destruct (proj2 (C10_zero_send_continues net_zero_first packet_ab Hdata)
              fresh_socket (after_empty_send fresh_socket)
              ltac:(change (0 < 2); lia) Hsend)
    as (_ & _ & Hone & Hnext & Hend & _).
  split; [exact Hdata|]. split; [exact Hsend|]. split; [exact Hone|]. split.
  - destruct (Hnext packet_cd eq_refl) as (result & s'' & Hcd & Hloop).
    vm_compute in Hcd. injection Hcd as <- <-. exact Hloop.
  - apply (Hend packet_end [packet_cd]). reflexivity.
Defined.

(** ** Dialling the local service (C8) *)

Lemma OpenSocketConnection_loop_open (connect : nat -> SharedFD) (fuel : nat) :
  forall attempt trace sock trace',
  OpenSocketConnection_loop fuel connect attempt trace = Some (sock, trace') ->
  IsOpen sock = true.
Proof.
  induction fuel as [|fuel IH]; intros attempt trace sock trace' H; [discriminate|].
  cbn [OpenSocketConnection_loop] in H.
  destruct (IsOpen (connect attempt)) eqn:Hopen.
  - injection H as <- _. exact Hopen.
  - eapply IH. exact H.
Qed.

Lemma OpenSocketConnection_loop_retries (connect : nat -> SharedFD) (failures : nat) :
  forall fuel attempt trace,
  (forall i, (i < failures)%nat -> IsOpen (connect (attempt + i)%nat) = false) ->
  OpenSocketConnection_loop (failures + fuel) connect attempt trace
    = OpenSocketConnection_loop fuel connect (attempt + failures)%nat
        (trace ++ dial_trace failures).
Proof.
  induction failures as [|failures IH]; intros fuel attempt trace Hfail.
  - cbn. rewrite Nat.add_0_r, app_nil_r. reflexivity.
  - cbn [Nat.add OpenSocketConnection_loop].
    pose proof (Hfail 0%nat ltac:(lia)) as H0. rewrite Nat.add_0_r in H0. rewrite H0.
    rewrite IH.
    + replace (S attempt + failures)%nat with (attempt + S failures)%nat by lia.
      f_equal. unfold dial_trace. cbn. rewrite <- app_assoc. reflexivity.
    + intros i Hi. replace (S attempt + i)%nat with (attempt + S i)%nat by lia.
      apply Hfail. lia.
Qed.

(** C8: [OpenSocketConnection] only ever returns an open socket; if the
    first [k] connection attempts fail and the next one succeeds, it
    returns that socket after [k] warnings, each followed by a sleep of
    one second; and as long as the attempts fail it keeps trying: however
    many attempts have failed, it has neither returned nor stopped. *)
Theorem C8_dial_retries (connect : nat -> SharedFD) :
  (forall fuel sock trace,
     OpenSocketConnection fuel connect = Some (sock, trace) -> IsOpen sock = true) /\
  (forall k fuel,
     (forall i, (i < k)%nat -> IsOpen (connect i) = false) ->
     IsOpen (connect k) = true ->
     OpenSocketConnection (k + S fuel) connect = Some (connect k, dial_trace k)) /\
  (forall n,
     (forall i, (i < n)%nat -> IsOpen (connect i) = false) ->
     OpenSocketConnection n connect = None).
Proof.
  split; [|split].
  - intros fuel sock trace H. eapply OpenSocketConnection_loop_open. exact H.
  - intros k fuel Hfail Hopen. unfold OpenSocketConnection.
    rewrite OpenSocketConnection_loop_retries by exact Hfail.
    cbn. rewrite Hopen. reflexivity.
  - intros n Hfail. unfold OpenSocketConnection.
    replace n with (n + 0)%nat at 1 by lia.
    rewrite OpenSocketConnection_loop_retries by exact Hfail.
    reflexivity.
Qed.

Lemma C8_dial_retries_witness :
  (forall i, (i < 2)%nat -> IsOpen (connect_third i) = false) /\
  IsOpen (connect_third 2) = true /\
  OpenSocketConnection 5 connect_third
    = Some (fresh_socket, [LogWarning; Sleep 1; LogWarning; Sleep 1]) /\
  (forall i, (i < 1000)%nat -> IsOpen (connect_never i) = false) /\
  OpenSocketConnection 1000 connect_never = None.
Proof.
  assert (Hfail : forall i, (i < 2)%nat -> IsOpen (connect_third i) = false).
  { intros [|[|i]] Hi; [reflexivity|reflexivity|lia]. }
  assert (Hnever : forall i, (i < 1000)%nat -> IsOpen (connect_never i) = false).
  { intros i _. reflexivity. }
  split; [exact Hfail|]. split; [reflexivity|]. split.
  - apply (proj1 (proj2 (C8_dial_retries connect_third)) 2%nat 2%nat Hfail).
    reflexivity.
  - split; [exact Hnever|].
    apply (proj2 (proj2 (C8_dial_retries connect_never)) 1000%nat Hnever).
Defined.


(** * Further properties of the planner *)

(** ** Rounding to the page size *)

Lemma AlignToPageSize_bounds (P : platform) (val : Z) :
  0 < page_size P < 2 ^ 32 ->
  0 <= val ->
  val + (page_size P - 1) < 2 ^ 32 ->
  val <= AlignToPageSize P val < val + page_size P.
Proof.
  intros HP Hval Hfit.
  rewrite (AlignToPageSize_eq P HP).
  rewrite wrap32_small by (unfold is_uint32; lia).
  pose proof (Z.div_mod (val + (page_size P - 1)) (page_size P) ltac:(lia)) as Hdm.
  pose proof (Z.mod_pos_bound (val + (page_size P - 1)) (page_size P) ltac:(lia)) as Hmod.
  lia.
Qed.

Lemma AlignToPageSize_multiple (P : platform) (val : Z) :
  0 < page_size P < 2 ^ 32 ->
  0 <= val ->
  val + (page_size P - 1) < 2 ^ 32 ->
  (page_size P | val) ->
  AlignToPageSize P val = val.
Proof.
  intros HP Hval Hfit [k Hk].
  rewrite (AlignToPageSize_eq P HP).
  rewrite wrap32_small by (unfold is_uint32; lia).
  rewrite Hk.
  replace (k * page_size P + (page_size P - 1))
    with ((page_size P - 1) + k * page_size P) by lia.
  rewrite Z.div_add by lia. rewrite Z.div_small by lia. lia.
Qed.

(** X1: as long as [val + page_size - 1] fits 32 bits, [AlignToPageSize]
    returns the smallest multiple of the page size that is at least [val]:
    it is a multiple, it is at least [val] and less than [val + page_size],
    no smaller multiple is at or above [val], and a multiple is returned
    unchanged. *)
Theorem AlignToPageSize_rounds_up (P : platform) (val : Z) :
  0 < page_size P < 2 ^ 32 ->
  0 <= val ->
  val + (page_size P - 1) < 2 ^ 32 ->
  (page_size P | AlignToPageSize P val) /\
  val <= AlignToPageSize P val < val + page_size P /\
  (forall m, (page_size P | m) -> val <= m -> AlignToPageSize P val <= m) /\
  ((page_size P | val) -> AlignToPageSize P val = val).
Proof.
  intros HP Hval Hfit.
  pose proof (AlignToPageSize_bounds P val HP Hval Hfit) as Hb.
  pose proof (AlignToPageSize_aligned P HP val) as [q Hq].
  split; [exists q; exact Hq|]. split; [exact Hb|]. split.
  - intros m [k ->] Hm. rewrite Hq in *.
    destruct (Z.le_gt_cases q k) as [Hle|Hgt]; [nia|].
    exfalso. assert (k * page_size P + page_size P <= q * page_size P) by nia. lia.
  - apply AlignToPageSize_multiple; assumption.
Qed.

Lemma AlignToPageSize_rounds_up_witness :
  0 < page_size host_platform < 2 ^ 32 /\
  0 <= 5000 /\
  5000 + (page_size host_platform - 1) < 2 ^ 32 /\
  AlignToPageSize host_platform 5000 = 8192 /\
  5000 <= AlignToPageSize host_platform 5000 < 5000 + page_size host_platform.
Proof.
  assert (HP : 0 < page_size host_platform < 2 ^ 32) by (cbn; lia).
  assert (Hfit : 5000 + (page_size host_platform - 1) < 2 ^ 32) by (cbn; lia).
  split; [exact HP|]. split; [lia|]. split; [exact Hfit|].
  split; [reflexivity|].
  apply (AlignToPageSize_rounds_up host_platform 5000 HP ltac:(lia) Hfit).
Defined.

(** X2: [ResizeRegion] takes its [size_t] request modulo 2^32, and a
    request in the last page below 2^32 is rounded "up" to 0: for a known
    region whose minimum size is positive such a request is refused and
    the layout is left as it was. *)
Theorem ResizeRegion_request_wraps (P : platform) (l : VSoCMemoryLayoutImpl)
    (region_name : c_str) (new_min_size : Z) :
  0 < page_size P < 2 ^ 32 ->
  ResizeRegion P l region_name (new_min_size + 2 ^ 32)
    = ResizeRegion P l region_name new_min_size /\
  (2 ^ 32 - page_size P < new_min_size < 2 ^ 32 ->
   AlignToPageSize P new_min_size = 0 /\
   forall region,
     GetRegionByName l region_name = Some region ->
     0 < GetMinRegionSize P region ->
     ResizeRegion P l region_name new_min_size = Done (false, l)).
Proof.
  intros HP. split.
  - unfold ResizeRegion.
    replace (wrap32 (new_min_size + 2 ^ 32)) with (wrap32 new_min_size); [reflexivity|].
    unfold wrap32. rewrite <- (Z.mul_1_l (2 ^ 32)) at 2.
    rewrite Z.mod_add by lia. reflexivity.
  - intros Hlast.
    assert (Hzero : AlignToPageSize P new_min_size = 0).
    { rewrite (AlignToPageSize_eq P HP).
      assert (Hw : wrap32 (new_min_size + (page_size P - 1))
                   = new_min_size + (page_size P - 1) - 2 ^ 32).
      { unfold wrap32. symmetry. apply (Z.mod_unique_pos _ _ 1); lia. }
      rewrite Hw. rewrite Z.div_small by lia. reflexivity. }
    split; [exact Hzero|].
    intros region Hfound Hmin. unfold GetRegionByName in Hfound. unfold ResizeRegion.
    destruct (region_idx_by_name_ l !! c_addr region_name) as [index|]; [|discriminate].
    rewrite Hfound.
    rewrite (wrap32_small new_min_size) by (unfold is_uint32; lia).
    rewrite Hzero.
    destruct (Z.ltb_spec 0 (GetMinRegionSize P region)); [reflexivity|lia].
Qed.

Lemma ResizeRegion_request_wraps_witness :
  0 < page_size host_platform < 2 ^ 32 /\
  ResizeRegion host_platform layout_good name_screen (8192 + 2 ^ 32)
    = ResizeRegion host_platform layout_good name_screen 8192 /\
  ResizeRegion host_platform layout_good name_screen (2 ^ 32 - 1)
    = Done (false, layout_good).
Proof.
  assert (HP : 0 < page_size host_platform < 2 ^ 32) by (cbn; lia).
  split; [exact HP|]. split.
  - apply (proj1 (ResizeRegion_request_wraps host_platform layout_good name_screen 8192 HP)).
  - eapply (proj2 (ResizeRegion_request_wraps host_platform layout_good name_screen
                     (2 ^ 32 - 1) HP)).
    + cbn. lia.
    + vm_compute. reflexivity.
    + vm_compute. reflexivity.
Defined.


(** ** Where the signal tables lie *)

Lemma shl1_pow2 (n : Z) : 0 <= n -> shl1 n = 2 ^ n.
Proof. intros Hn. unfold shl1. rewrite Z.shiftl_mul_pow2 by exact Hn. lia. Qed.

(** X3: for log sizes whose tables fit 32 bits, the descriptor that
    [WriteRegionDescription] writes lays the region's head out without
    gaps or overlaps: the guest-to-host table of [2^g] four-byte nodes at
    offset 0, its interrupt word right behind it, then the host-to-guest
    table of [2^h] nodes and its interrupt word, and the region data
    directly after that word. *)
Theorem signal_tables_layout (P : platform) (previous : Z)
    (r : VSoCRegionLayoutImpl) (d : vsoc_device_region) :
  0 <= guest_to_host_signal_table_log_size_ r ->
  0 <= host_to_guest_signal_table_log_size_ r ->
  4 * 2 ^ guest_to_host_signal_table_log_size_ r
    + 4 * 2 ^ host_to_guest_signal_table_log_size_ r + 8 < 2 ^ 32 ->
  WriteRegionDescription P previous r = Done d ->
  let g2h := guest_to_host_signal_table d in
  let h2g := host_to_guest_signal_table d in
  num_nodes_lg2 g2h = guest_to_host_signal_table_log_size_ r /\
  futex_uaddr_table_offset g2h = 0 /\
  interrupt_signalled_offset g2h
    = futex_uaddr_table_offset g2h + 4 * 2 ^ num_nodes_lg2 g2h /\
  num_nodes_lg2 h2g = host_to_guest_signal_table_log_size_ r /\
  futex_uaddr_table_offset h2g = interrupt_signalled_offset g2h + 4 /\
  interrupt_signalled_offset h2g
    = futex_uaddr_table_offset h2g + 4 * 2 ^ num_nodes_lg2 h2g /\
  offset_of_region_data d = interrupt_signalled_offset h2g + 4.
Proof.
  intros Hg Hh Hfit Hwrite.
  unfold WriteRegionDescription, WriteSignalTableDescription in Hwrite.
  cbn [offset_of_region_data] in Hwrite.
  destruct (_ >? _) in Hwrite; [discriminate|].
  injection Hwrite as <-. cbn.
  unfold GetOffsetOfRegionData, sizeof_uint32.
  rewrite !shl1_pow2 by assumption.
  set (a := 2 ^ guest_to_host_signal_table_log_size_ r) in *.
  set (b := 2 ^ host_to_guest_signal_table_log_size_ r) in *.
  assert (0 < a) by (apply Z.pow_pos_nonneg; lia).
  assert (0 < b) by (apply Z.pow_pos_nonneg; lia).
  rewrite (wrap32_small (0 + a * 4)) by (unfold is_uint32; lia).
  rewrite (wrap32_small (0 + a * 4 + 4)) by (unfold is_uint32; lia).
  rewrite (wrap32_small (0 + a * 4 + 4 + b * 4)) by (unfold is_uint32; lia).
  rewrite (wrap32_small (0 + a * 4 + b * 4)) by (unfold is_uint32; lia).
  rewrite (wrap32_small (0 + a * 4 + b * 4 + 2 * 4)) by (unfold is_uint32; lia).
  repeat split; lia.
Qed.

Lemma signal_tables_layout_witness :
  exists d,
    WriteRegionDescription host_platform 0
      (ValidateAndBuildLayout host_platform spec_screen) = Done d /\
    futex_uaddr_table_offset (guest_to_host_signal_table d) = 0 /\
    interrupt_signalled_offset (guest_to_host_signal_table d) = 16 /\
    futex_uaddr_table_offset (host_to_guest_signal_table d) = 20 /\
    interrupt_signalled_offset (host_to_guest_signal_table d) = 36 /\
    offset_of_region_data d = 40.
Proof.
  eexists. split; [reflexivity|].
  destruct (signal_tables_layout host_platform 0
              (ValidateAndBuildLayout host_platform spec_screen) _
              ltac:(cbn; lia) ltac:(cbn; lia) ltac:(cbn; lia) eq_refl)
    as (_ & H1 & H2 & _ & H3 & H4 & H5).
  repeat split; reflexivity.
Defined.

(** ** The device name *)

Lemma substring_0_length (n : nat) (s : string) :
  String.length (String.substring 0 n s) = Nat.min n (String.length s).
Proof.
  revert s. induction n as [|n IH]; intros [|c s]; cbn; try reflexivity.
  rewrite IH. reflexivity.
Qed.

Lemma substring_0_prefix (n : nat) (s : string) :
  String.prefix (String.substring 0 n s) s = true.
Proof.
  revert s. induction n as [|n IH]; intros [|c s]; cbn; try reflexivity.
  destruct (Ascii.ascii_dec c c); [apply IH|congruence].
Qed.

Lemma substring_0_all (n : nat) (s : string) :
  (String.length s <= n)%nat -> String.substring 0 n s = s.
Proof.
  revert s. induction n as [|n IH]; intros [|c s] Hlen; cbn in *; try reflexivity;
    try lia.
  rewrite IH by lia. reflexivity.
Qed.

(** X4: the device name written to a descriptor is the region name cut
    to at most [VSOC_DEVICE_NAME_SZ - 1] characters, so that it fits the
    field together with its terminating NUL: a shorter name is copied
    whole, a longer one loses its tail. *)
Theorem device_name_truncated (P : platform) (previous : Z)
    (r : VSoCRegionLayoutImpl) (d : vsoc_device_region) :
  (1 <= VSOC_DEVICE_NAME_SZ P)%nat ->
  WriteRegionDescription P previous r = Done d ->
  (String.length (device_name d) < VSOC_DEVICE_NAME_SZ P)%nat /\
  String.length (device_name d)
    = Nat.min (VSOC_DEVICE_NAME_SZ P - 1) (String.length (c_chars (region_name_ r))) /\
  String.prefix (device_name d) (c_chars (region_name_ r)) = true /\
  ((String.length (c_chars (region_name_ r)) < VSOC_DEVICE_NAME_SZ P)%nat ->
   device_name d = c_chars (region_name_ r)).
Proof.
  intros Hsz Hwrite.
  destruct (WriteRegionDescription_Done P previous r)
    as (d' & Hd' & _ & _ & _ & _ & _ & Hname & _).
  rewrite Hd' in Hwrite. injection Hwrite as <-.
  rewrite Hname. unfold strncpy.
  rewrite substring_0_length.
  split; [lia|]. split; [reflexivity|]. split; [apply substring_0_prefix|].
  intros Hshort. apply substring_0_all. lia.
Qed.

Lemma device_name_truncated_witness :
  (1 <= VSOC_DEVICE_NAME_SZ host_platform)%nat /\
  exists d,
    WriteRegionDescription host_platform 0
      (new_VSoCRegionLayoutImpl host_platform
         (CStr 5000 "a_region_name_of_some_length") 0 0 0 None) = Done d /\
    device_name d = "a_region_name_o"%string /\
    (String.length (device_name d) < VSOC_DEVICE_NAME_SZ host_platform)%nat.
Proof.
  assert (Hsz : (1 <= VSOC_DEVICE_NAME_SZ host_platform)%nat) by (cbn; lia).
  split; [exact Hsz|].
  eexists. split; [reflexivity|]. split; [reflexivity|].
  apply (device_name_truncated host_platform 0
           (new_VSoCRegionLayoutImpl host_platform
              (CStr 5000 "a_region_name_of_some_length") 0 0 0 None) _ Hsz eq_refl).
Defined.


(** ** Regions of a constructed layout *)

Lemma Plan_regions (P : platform) (specs : list RegionSpec) (l : VSoCMemoryLayoutImpl) :
  Plan P specs = Done l ->
  GetNameToIndexMap (ValidateAndBuildLayout P <$> specs) = Done (region_idx_by_name_ l) /\
  length (regions_ l) = length specs /\
  forall i r', regions_ l !! i = Some r' ->
    exists s, specs !! i = Some s /\ same_but_begin (ValidateAndBuildLayout P s) r'.
Proof.
  unfold Plan, new_VSoCMemoryLayoutImpl.
  set (regions := ValidateAndBuildLayout P <$> specs).
  destruct (GetNameToIndexMap regions) as [m|] eqn:Hmap; [|discriminate].
  cbn [mbind outcome_bind].
  destruct (check_managed_by m regions) as [[]|]; [|discriminate].
  cbn [mbind outcome_bind]. intros Hupd.
  apply UpdateRegionOffsetsAndDeviceSize_Done in Hupd.
  cbn [regions_ region_idx_by_name_] in Hupd.
  destruct Hupd as (offset' & Hloop & Hm & _).
  apply UpdateRegionOffsets_loop_spec in Hloop; [|lia].
  destruct Hloop as (Hlen & _ & Hsame & _).
  split; [congruence|]. split.
  - rewrite Hlen. subst regions. apply length_fmap.
  - intros i r' Hr'. destruct (Hsame i r' Hr') as (r & Hr & Hsb).
    subst regions. rewrite list_lookup_fmap in Hr.
    destruct (specs !! i) as [s|]; [|discriminate]. injection Hr as <-.
    exists s. split; [reflexivity|exact Hsb].
Qed.

(** What a successful resize does to the static part and the size of
    every region. *)
Lemma ResizeRegion_regions (P : platform) (l l' : VSoCMemoryLayoutImpl)
    (region_name : c_str) (new_min_size : Z) :
  ResizeRegion P l region_name new_min_size = Done (true, l') ->
  exists k,
    region_idx_by_name_ l !! c_addr region_name = Some k /\
    region_idx_by_name_ l' = region_idx_by_name_ l /\
    length (regions_ l') = length (regions_ l) /\
    forall i r', regions_ l' !! i = Some r' ->
      exists r, regions_ l !! i = Some r /\ same_static r r' /\
        (i <> k -> size_ r' = size_ r) /\
        (i = k -> size_ r' = AlignToPageSize P (wrap32 new_min_size) /\
                  GetMinRegionSize P r <= size_ r' /\
                  begin_offset_ r' = begin_offset_ r).
Proof.
  intros Hres.
  destruct (ResizeRegion_frame _ _ _ _ _ Hres)
    as (k & region & Hidx & Hregion & Hm & Hlen & Hbelow & Hmine & Habove).
  apply ResizeRegion_true in Hres.
  destruct Hres as (k' & region' & _ & Hidx' & Hregion' & Hmin & _).
  assert (k' = k) by congruence. subst k'.
  assert (region' = region) by congruence. subst region'.
  exists k. split; [exact Hidx|]. split; [exact Hm|]. split; [exact Hlen|].
  intros i r' Hr'.
  destruct (lt_eq_lt_dec i k) as [[Hlt | ->] | Hgt].
  - rewrite Hbelow in Hr' by exact Hlt. exists r'.
    split; [exact Hr'|]. split; [repeat split|]. split; [reflexivity|lia].
  - rewrite Hmine in Hr'. injection Hr' as <-. exists region.
    split; [exact Hregion|]. split; [repeat split|]. split; [congruence|].
    intros _. cbn. repeat split. exact Hmin.
  - destruct (Habove i r' Hgt Hr') as (r & Hr & Hsb). exists r.
    split; [exact Hr|]. split; [apply same_but_begin_static; exact Hsb|].
    split; [intros _; apply same_but_begin_size; exact Hsb|lia].
Qed.

Lemma planned_sizes_cover_min (P : platform) (l : VSoCMemoryLayoutImpl) :
  planned P l -> sizes_cover_min P l.
Proof.
  intros Hplanned. induction Hplanned as [specs l Hplan|l name sz l' _ IH Hres].
  - intros i r' Hr'.
    destruct (Plan_regions _ _ _ Hplan) as (_ & _ & Hregions).
    destruct (Hregions i r' Hr') as (s & _ & Hsb).
    rewrite (same_but_begin_size _ _ Hsb).
    rewrite (GetMinRegionSize_static P _ _ (same_but_begin_static _ _ Hsb)).
    unfold ValidateAndBuildLayout, new_VSoCRegionLayoutImpl.
    apply Z.eq_le_incl. reflexivity.
  - intros i r' Hr'.
    destruct (ResizeRegion_regions _ _ _ _ _ Hres) as (k & _ & _ & _ & Hregions).
    destruct (Hregions i r' Hr') as (r & Hr & Hstatic & Hother & Hmine).
    rewrite (GetMinRegionSize_static P _ _ Hstatic).
    destruct (decide (i = k)) as [Heq|Hne].
    + apply (Hmine Heq).
    + rewrite (Hother Hne). apply (IH i r Hr).
Qed.

(** X5: in every layout that was constructed and possibly resized, a
    region is never smaller than its minimum size; when the signal-table
    overhead plus the data layout, rounded to a page, fits 32 bits, the
    region has room for both. *)
Theorem region_holds_its_layout (P : platform) (l : VSoCMemoryLayoutImpl)
    (i : nat) (r : VSoCRegionLayoutImpl) :
  planned P l ->
  regions_ l !! i = Some r ->
  GetMinRegionSize P r <= size_ r /\
  (0 < page_size P < 2 ^ 32 ->
   0 <= layout_size_ r ->
   GetOffsetOfRegionData r + layout_size_ r + (page_size P - 1) < 2 ^ 32 ->
   GetOffsetOfRegionData r + layout_size_ r <= size_ r).
Proof.
  intros Hplanned Hr.
  pose proof (planned_sizes_cover_min P l Hplanned i r Hr) as Hmin.
  split; [exact Hmin|].
  intros HP Hlayout Hfit.
  pose proof (wrap32_range (GetOffsetOfRegionData r)) as Hdata.
  assert (Hdata' : is_uint32 (GetOffsetOfRegionData r)).
  { unfold GetOffsetOfRegionData. apply wrap32_range. }
  unfold is_uint32 in Hdata'.
  unfold GetMinRegionSize in Hmin.
  rewrite (wrap32_small (GetOffsetOfRegionData r + layout_size_ r)) in Hmin
    by (unfold is_uint32; lia).
  pose proof (AlignToPageSize_bounds P (GetOffsetOfRegionData r + layout_size_ r)
                HP ltac:(lia) Hfit).
  lia.
Qed.

Lemma region_holds_its_layout_witness :
  planned host_platform layout_good_grown /\
  exists r,
    regions_ layout_good_grown !! 1%nat = Some r /\
    GetMinRegionSize host_platform r <= size_ r /\
    GetOffsetOfRegionData r + layout_size_ r <= size_ r.
Proof.
  assert (Hplanned : planned host_platform layout_good_grown).
  { apply (planned_resize _ layout_good name_gralloc_manager 16384).
    - apply (planned_new _ specs_good). vm_compute. reflexivity.
    - vm_compute. reflexivity. }
  split; [exact Hplanned|].
  eexists. split; [reflexivity|].
  destruct (region_holds_its_layout host_platform layout_good_grown 1%nat _
              Hplanned eq_refl) as [Hmin Hroom].
  split; [exact Hmin|].
  apply Hroom; [cbn; lia|cbn; lia|vm_compute; reflexivity].
Defined.


(** ** Looking regions up by name *)

Lemma GetNameToIndexMap_exact (regions : list VSoCRegionLayoutImpl) (m : gmap Z nat) :
  GetNameToIndexMap regions = Done m ->
  forall i r, regions !! i = Some r -> m !! c_addr (region_name_ r) = Some i.
Proof.
  intros Hmap i r Hr.
  pose proof (GetNameToIndexMap_from_Done _ _ _ _ Hmap) as (Hnodup & _ & _).
  pose proof (GetNameToIndexMap_from_spec _ _ _ _ Hmap) as (_ & Hfrom & Hall).
  destruct (Hall i r Hr) as [k Hk]. rewrite Hk. f_equal.
  destruct (Hfrom _ _ Hk) as [Hempty|(j & r0 & -> & Hr0 & Haddr)].
  { rewrite lookup_empty in Hempty. discriminate. }
  cbn. apply (NoDup_lookup _ j i (c_addr (region_name_ r)) Hnodup).
  - unfold name_addrs. rewrite list_lookup_fmap, Hr0. cbn. congruence.
  - unfold name_addrs. rewrite list_lookup_fmap, Hr. reflexivity.
Qed.

Lemma planned_names_exact (P : platform) (l : VSoCMemoryLayoutImpl) :
  planned P l -> names_exact l.
Proof.
  intros Hplanned. induction Hplanned as [specs l Hplan|l name sz l' _ IH Hres].
  - intros i r' Hr'.
    destruct (Plan_regions _ _ _ Hplan) as (Hmap & _ & Hregions).
    destruct (Hregions i r' Hr') as (s & Hs & Hsb).
    destruct (same_but_begin_static _ _ Hsb) as (-> & _).
    apply (GetNameToIndexMap_exact _ _ Hmap).
    rewrite list_lookup_fmap, Hs. reflexivity.
  - intros i r' Hr'.
    destruct (ResizeRegion_regions _ _ _ _ _ Hres) as (k & _ & -> & _ & Hregions).
    destruct (Hregions i r' Hr') as (r & Hr & (-> & _) & _).
    apply (IH i r Hr).
Qed.

(** X6: in a layout that was constructed and possibly resized,
    [GetRegionByName] finds every region under its own name, a region it
    returns carries the name asked for and is a region of the layout, and
    it returns [nullptr] exactly for the names that no region carries. *)
Theorem GetRegionByName_finds (P : platform) (l : VSoCMemoryLayoutImpl) :
  planned P l ->
  (forall i r, regions_ l !! i = Some r ->
     GetRegionByName l (region_name_ r) = Some r) /\
  (forall region_name r, GetRegionByName l region_name = Some r ->
     c_addr (region_name_ r) = c_addr region_name /\ r ∈ regions_ l) /\
  (forall region_name,
     GetRegionByName l region_name = None <->
     forall r, r ∈ regions_ l -> c_addr (region_name_ r) <> c_addr region_name).
Proof.
  intros Hplanned.
  pose proof (planned_names_exact P l Hplanned) as Hexact.
  destruct (planned_inv P l Hplanned) as [Hnames _ _ _ _ _].
  assert (Hfind : forall i r, regions_ l !! i = Some r ->
            GetRegionByName l (region_name_ r) = Some r).
  { intros i r Hr. unfold GetRegionByName. rewrite (Hexact i r Hr). exact Hr. }
  assert (Hfound : forall region_name r, GetRegionByName l region_name = Some r ->
            c_addr (region_name_ r) = c_addr region_name /\ r ∈ regions_ l).
  { intros name r Hget. unfold GetRegionByName in Hget.
    destruct (region_idx_by_name_ l !! c_addr name) as [k|] eqn:Hk; [|discriminate].
    destruct (Hnames _ _ Hk) as (r0 & Hr0 & Haddr).
    rewrite Hr0 in Hget. injection Hget as <-.
    split; [exact Haddr|]. apply list_elem_of_lookup. exists k. exact Hr0. }
  split; [exact Hfind|]. split; [exact Hfound|].
  intros name. split.
  - intros Hnone r Hr Haddr.
    apply list_elem_of_lookup in Hr. destruct Hr as [i Hi].
    pose proof (Hfind i r Hi) as Hget.
    unfold GetRegionByName in Hget, Hnone. rewrite Haddr in Hget.
    rewrite Hget in Hnone. discriminate.
  - intros Hall. destruct (GetRegionByName l name) as [r|] eqn:Hget; [|reflexivity].
    destruct (Hfound name r Hget) as [Haddr Hr].
    exfalso. apply (Hall r Hr Haddr).
Qed.

Lemma GetRegionByName_finds_witness :
  planned host_platform layout_good_grown /\
  (exists r, regions_ layout_good_grown !! 2%nat = Some r /\
     GetRegionByName layout_good_grown (region_name_ r) = Some r) /\
  GetRegionByName layout_good_grown name_unknown = None.
Proof.
  assert (Hplanned : planned host_platform layout_good_grown).
  { apply (planned_resize _ layout_good name_gralloc_manager 16384).
    - apply (planned_new _ specs_good). vm_compute. reflexivity.
    - vm_compute. reflexivity. }
  split; [exact Hplanned|]. split.
  - eexists. split; [reflexivity|].
    apply (proj1 (GetRegionByName_finds host_platform layout_good_grown Hplanned) 2%nat).
    reflexivity.
  - vm_compute. reflexivity.
Defined.

(** ** Regions inside the device *)

Lemma chained_regions_ordered (P : platform) (l : VSoCMemoryLayoutImpl) :
  layout_inv P l ->
  (forall i r, regions_ l !! i = Some r -> end_offset r < 2 ^ 32) ->
  forall d i ri rj,
    regions_ l !! i = Some ri -> regions_ l !! (i + S d)%nat = Some rj ->
    end_offset ri <= begin_offset_ rj.
Proof.
  intros Hinv Hfit.
  pose proof (begin_offset_aligned P l Hinv) as Hbegin.
  destruct Hinv as [_ _ Hsizes _ Hchain _].
  assert (Hnext : forall i r r', regions_ l !! i = Some r ->
            regions_ l !! S i = Some r' -> begin_offset_ r' = end_offset r).
  { intros i r r' Hr Hr'. rewrite (Hchain i r r' Hr Hr'). apply wrap32_small.
    specialize (Hfit i r Hr). destruct (Hbegin i r Hr) as [Hb _].
    destruct (Hsizes i r Hr) as [Hs _]. unfold is_uint32, end_offset in *. lia. }
  induction d as [|d IH]; intros i ri rj Hri Hrj.
  - replace (i + 1)%nat with (S i) in Hrj by lia.
    rewrite (Hnext i ri rj Hri Hrj). lia.
  - destruct (lookup_lt_is_Some_2 (regions_ l) (i + S d)) as [rm Hrm].
    { apply lookup_lt_Some in Hrj. lia. }
    replace (i + S (S d))%nat with (S (i + S d)) in Hrj by lia.
    rewrite (Hnext _ rm rj Hrm Hrj).
    specialize (IH i ri rm Hri Hrm).
    destruct (Hsizes _ rm Hrm) as [Hs _]. unfold is_uint32, end_offset in *. lia.
Qed.

(** X7: when no region of a constructed or resized layout ends at or
    beyond 2^32, the regions lie one after the other without overlap
    (a region ends at or before the begin of every later region), none
    begins before the page-aligned end of the descriptor table, and all of
    them end within the device size. *)
Theorem regions_do_not_overlap (P : platform) (l : VSoCMemoryLayoutImpl) :
  planned P l ->
  (forall i r, regions_ l !! i = Some r -> end_offset r < 2 ^ 32) ->
  (forall i j ri rj, (i < j)%nat ->
     regions_ l !! i = Some ri -> regions_ l !! j = Some rj ->
     begin_offset_ ri <= end_offset ri /\ end_offset ri <= begin_offset_ rj) /\
  (forall i r, regions_ l !! i = Some r ->
     first_region_offset P (length (regions_ l)) <= begin_offset_ r /\
     end_offset r <= GetMemoryFileSize l).
Proof.
  intros Hplanned Hfit.
  pose proof (planned_inv P l Hplanned) as Hinv.
  pose proof (chained_regions_ordered P l Hinv Hfit) as Hordered.
  pose proof (begin_offset_aligned P l Hinv) as Hbegin.
  destruct Hinv as [_ _ Hsizes Hfirst _ Hdevice].
  assert (Hgrow : forall i r, regions_ l !! i = Some r ->
            begin_offset_ r <= end_offset r).
  { intros i r Hr. destruct (Hsizes i r Hr) as [Hs _].
    unfold is_uint32, end_offset in *. lia. }
  split.
  - intros i j ri rj Hij Hri Hrj. split; [apply (Hgrow i ri Hri)|].
    apply (Hordered (j - i - 1)%nat i ri rj Hri).
    replace (i + S (j - i - 1))%nat with j by lia. exact Hrj.
  - intros i r Hr. split.
    + destruct i as [|i]; [rewrite (Hfirst r Hr); lia|].
      destruct (lookup_lt_is_Some_2 (regions_ l) 0) as [r0 Hr0].
      { apply lookup_lt_Some in Hr. lia. }
      rewrite <- (Hfirst r0 Hr0).
      pose proof (Hordered i 0%nat r0 r Hr0 Hr). pose proof (Hgrow _ _ Hr0). lia.
    + destruct (lookup_lt_is_Some_2 (regions_ l) (Nat.pred (length (regions_ l))))
        as [rl Hrl].
      { apply lookup_lt_Some in Hr. lia. }
      assert (Hlast : last (regions_ l) = Some rl) by (rewrite last_lookup; exact Hrl).
      pose proof (Hdevice rl Hlast) as Hdev.
      apply AlignToPowerOf2_Some in Hdev.
      destruct Hdev as [_ (k & _ & _ & Hle & _)].
      rewrite wrap32_small in Hle.
      2:{ specialize (Hfit _ rl Hrl). destruct (Hbegin _ rl Hrl) as [Hb _].
          pose proof (Hgrow _ _ Hrl). unfold is_uint32 in *. lia. }
      unfold GetMemoryFileSize.
      destruct (decide (i = Nat.pred (length (regions_ l)))) as [->|Hne].
      * rewrite Hrl in Hr. injection Hr as <-. exact Hle.
      * pose proof (lookup_lt_Some _ _ _ Hr).
        pose proof (Hordered (Nat.pred (length (regions_ l)) - i - 1)%nat i r rl Hr) as Ho.
        replace (i + S (Nat.pred (length (regions_ l)) - i - 1))%nat
          with (Nat.pred (length (regions_ l))) in Ho by lia.
        specialize (Ho Hrl). pose proof (Hgrow _ _ Hrl). lia.
Qed.

Lemma layout_good_grown_fits :
  forall i r, regions_ layout_good_grown !! i = Some r -> end_offset r < 2 ^ 32.
Proof.
  intros [|[|[|i]]] r Hr; cbn in Hr; try discriminate; injection Hr as <-;
    vm_compute; reflexivity.
Qed.

Lemma regions_do_not_overlap_witness :
  planned host_platform layout_good_grown /\
  (forall i r, regions_ layout_good_grown !! i = Some r -> end_offset r < 2 ^ 32) /\
  exists r0 r2,
    regions_ layout_good_grown !! 0%nat = Some r0 /\
    regions_ layout_good_grown !! 2%nat = Some r2 /\
    end_offset r0 <= begin_offset_ r2 /\
    end_offset r2 <= GetMemoryFileSize layout_good_grown.
Proof.
  assert (Hplanned : planned host_platform layout_good_grown).
  { apply (planned_resize _ layout_good name_gralloc_manager 16384).
    - apply (planned_new _ specs_good). vm_compute. reflexivity.
    - vm_compute. reflexivity. }
  split; [exact Hplanned|]. split; [exact layout_good_grown_fits|].
  eexists _, _. split; [reflexivity|]. split; [reflexivity|].
  pose proof (regions_do_not_overlap host_platform layout_good_grown Hplanned
                layout_good_grown_fits) as [Hpairs Heach].
  split.
  - apply (Hpairs 0%nat 2%nat); [lia|reflexivity|reflexivity].
  - apply (Heach 2%nat). reflexivity.
Defined.

(** ** Accepted resizes *)

(** X8: when the named region exists and the request, narrowed to 32
    bits and rounded to the page size, is at least the region's minimum
    size, [ResizeRegion] does not refuse and does not abort: either it
    does not return (the new final offset exceeds 2^31), or it returns
    [true], and [GetRegionByName] then yields the region with the rounded
    request as its size and its begin offset unchanged. *)
Theorem ResizeRegion_accepts (P : platform) (l : VSoCMemoryLayoutImpl)
    (region_name : c_str) (new_min_size : Z) (region : VSoCRegionLayoutImpl) :
  GetRegionByName l region_name = Some region ->
  GetMinRegionSize P region <= AlignToPageSize P (wrap32 new_min_size) ->
  ResizeRegion P l region_name new_min_size = Stop NoReturn \/
  exists l',
    ResizeRegion P l region_name new_min_size = Done (true, l') /\
    GetRegionByName l' region_name
      = Some (SetRegionSize region (AlignToPageSize P (wrap32 new_min_size))).
Proof.
  intros Hget Hmin.
  destruct (ResizeRegion P l region_name new_min_size) as [[[] l']|f] eqn:Hres.
  - right. exists l'. split; [reflexivity|].
    destruct (ResizeRegion_frame _ _ _ _ _ Hres)
      as (k & region' & Hidx & Hregion & Hm & _ & _ & Hmine & _).
    unfold GetRegionByName in *. rewrite Hm, Hidx in *.
    rewrite Hregion in Hget. injection Hget as ->. exact Hmine.
  - exfalso. unfold ResizeRegion, GetRegionByName in *.
    destruct (region_idx_by_name_ l !! c_addr region_name) as [k|]; [|discriminate].
    rewrite Hget in Hres.
    destruct (Z.ltb_spec (AlignToPageSize P (wrap32 new_min_size))
                (GetMinRegionSize P region)); [lia|].
    destruct (UpdateRegionOffsetsAndDeviceSize _ _ _); discriminate.
  - left. unfold ResizeRegion, GetRegionByName in *.
    destruct (region_idx_by_name_ l !! c_addr region_name) as [k|]; [|discriminate].
    rewrite Hget in Hres.
    destruct (Z.ltb_spec (AlignToPageSize P (wrap32 new_min_size))
                (GetMinRegionSize P region)); [discriminate|].
    unfold UpdateRegionOffsetsAndDeviceSize in Hres.
    destruct (UpdateRegionOffsets_loop _ _ _ _) as [regions' offset'].
    destruct (AlignToPowerOf2 offset'); [discriminate|].
    cbn in Hres. symmetry. exact Hres.
Qed.

Lemma ResizeRegion_accepts_witness :
  exists region,
    GetRegionByName layout_good name_gralloc_manager = Some region /\
    GetMinRegionSize host_platform region
      <= AlignToPageSize host_platform (wrap32 16000) /\
    exists l',
      ResizeRegion host_platform layout_good name_gralloc_manager 16000
        = Done (true, l') /\
      GetRegionByName l' name_gralloc_manager = Some (SetRegionSize region 16384).
Proof.
  eexists. split; [vm_compute; reflexivity|].
  assert (Hmin : GetMinRegionSize host_platform
                   (Region name_gralloc_manager 5000 2 2 None 8192 8192)
                 <= AlignToPageSize host_platform (wrap32 16000)).
  { vm_compute. discriminate. }
  split; [exact Hmin|].
  destruct (ResizeRegion_accepts host_platform layout_good name_gralloc_manager 16000
              (Region name_gralloc_manager 5000 2 2 None 8192 8192)
              ltac:(vm_compute; reflexivity) Hmin) as [Hspin|(l' & Hres & Hget)].
  - vm_compute in Hspin. discriminate.
  - exists l'. split; [exact Hres|exact Hget].
Defined.


(** ** Resizing twice *)

Lemma SetBeginOffset_id (r : VSoCRegionLayoutImpl) :
  SetBeginOffset r (begin_offset_ r) = r.
Proof. destruct r; reflexivity. Qed.

Lemma SetRegionSize_id (r : VSoCRegionLayoutImpl) :
  SetRegionSize r (size_ r) = r.
Proof. destruct r; reflexivity. Qed.

(** On a list whose begin offsets are already chained from [index] on,
    the offset loop changes nothing. *)
Lemma UpdateRegionOffsets_loop_chained (steps : nat) :
  forall (regions : list VSoCRegionLayoutImpl) (offset : Z) (index : nat),
  (forall r, regions !! index = Some r -> begin_offset_ r = offset) ->
  (forall i r r', (index <= i)%nat -> regions !! i = Some r ->
     regions !! S i = Some r' -> begin_offset_ r' = wrap32 (end_offset r)) ->
  fst (UpdateRegionOffsets_loop steps regions offset index) = regions.
Proof.
  induction steps as [|steps IH]; intros regions offset index Hat Hchain;
    [reflexivity|].
  cbn [UpdateRegionOffsets_loop].
  destruct (regions !! index) as [r|] eqn:Hr; [|reflexivity].
  rewrite <- (Hat r eq_refl), SetBeginOffset_id.
  rewrite list_insert_id by exact Hr.
  apply IH.
  - intros r' Hr'. apply (Hchain index r r'); [lia|exact Hr|exact Hr'].
  - intros i r1 r2 Hi. apply Hchain. lia.
Qed.

(** The offset loop reads the sizes of the regions from [index] on, not
    their begin offsets. *)
Lemma UpdateRegionOffsets_loop_ext (steps : nat) :
  forall (A B : list VSoCRegionLayoutImpl) (offset : Z) (index : nat),
  length A = length B ->
  (length A - index <= steps)%nat ->
  (forall i, (i < index)%nat -> A !! i = B !! i) ->
  (forall i a, (index <= i)%nat -> A !! i = Some a ->
     exists b, B !! i = Some b /\ SetBeginOffset a 0 = SetBeginOffset b 0) ->
  UpdateRegionOffsets_loop steps A offset index
    = UpdateRegionOffsets_loop steps B offset index.
Proof.
  assert (Hend : forall (A B : list VSoCRegionLayoutImpl) index,
            length A = length B -> (length A <= index)%nat ->
            (forall i, (i < index)%nat -> A !! i = B !! i) -> A = B).
  { intros A B index Hlen Hidx Hbelow. apply list_eq. intros i.
    destruct (decide (i < index)%nat) as [Hlt|Hge]; [apply Hbelow; exact Hlt|].
    rewrite !lookup_ge_None_2 by lia. reflexivity. }
  induction steps as [|steps IH]; intros A B offset index Hlen Hsteps Hbelow Habove.
  - cbn. f_equal. apply (Hend A B index); [exact Hlen|lia|exact Hbelow].
  - cbn [UpdateRegionOffsets_loop].
    destruct (A !! index) as [a|] eqn:Ha.
    + destruct (Habove index a ltac:(lia) Ha) as (b & Hb & Hab). rewrite Hb.
      assert (Hsize : size_ a = size_ b).
      { change (size_ (SetBeginOffset a 0) = size_ (SetBeginOffset b 0)).
        rewrite Hab. reflexivity. }
      assert (Hset : SetBeginOffset a offset = SetBeginOffset b offset).
      { rewrite <- (SetBeginOffset_twice a 0 offset), Hab. reflexivity. }
      rewrite Hsize, Hset.
      pose proof (lookup_lt_Some _ _ _ Ha) as HiA.
      apply IH.
      * rewrite !length_insert. exact Hlen.
      * rewrite length_insert. lia.
      * intros i Hi. destruct (decide (i = index)) as [->|Hne].
        -- rewrite !list_lookup_insert_eq by lia. reflexivity.
        -- rewrite !list_lookup_insert_ne by lia. apply Hbelow. lia.
      * intros i a' Hi Ha'. rewrite list_lookup_insert_ne in Ha' by lia.
        rewrite list_lookup_insert_ne by lia. apply Habove; [lia|exact Ha'].
    + pose proof (lookup_ge_None_1 _ _ Ha) as HiA.
      rewrite (lookup_ge_None_2 B index) by lia.
      f_equal. apply (Hend A B index); [exact Hlen|lia|exact Hbelow].
Qed.

(** X9: on a layout that was constructed and possibly resized,
    resizing a region to the size it has is accepted and changes nothing:
    [ResizeRegion] returns [true] and the layout, device size included, is
    the one before the call. *)
Theorem ResizeRegion_same_size (P : platform) (l : VSoCMemoryLayoutImpl)
    (region_name : c_str) (region : VSoCRegionLayoutImpl) :
  valid_platform P ->
  planned P l ->
  GetRegionByName l region_name = Some region ->
  ResizeRegion P l region_name (size_ region) = Done (true, l).
Proof.
  intros [HP Hdiv] Hplanned Hget.
  pose proof (planned_sizes_cover_min P l Hplanned) as Hcover.
  destruct (planned_inv P l Hplanned) as [_ _ Hsizes _ Hchain Hdevice].
  unfold GetRegionByName in Hget. unfold ResizeRegion.
  destruct (region_idx_by_name_ l !! c_addr region_name) as [k|]; [|discriminate].
  rewrite Hget.
  destruct (Hsizes k region Hget) as [Hrange Haligned]. specialize (Haligned HP).
  assert (Hsame : AlignToPageSize P (wrap32 (size_ region)) = size_ region).
  { rewrite wrap32_small by exact Hrange.
    unfold is_uint32 in Hrange.
    apply AlignToPageSize_multiple; [exact HP|lia| |exact Haligned].
    destruct Haligned as [a Ha]. destruct Hdiv as [q Hq].
    assert (a < q) by nia. assert (a * page_size P + page_size P <= q * page_size P) by nia.
    lia. }
  rewrite Hsame.
  destruct (Z.ltb_spec (size_ region) (GetMinRegionSize P region)) as [Hlt|_].
  { specialize (Hcover k region Hget). lia. }
  rewrite SetRegionSize_id, list_insert_id by exact Hget.
  unfold UpdateRegionOffsetsAndDeviceSize. cbn [regions_ region_idx_by_name_].
  assert (Hfix : fst (UpdateRegionOffsets_loop (length (regions_ l)) (regions_ l)
                        (wrap32 (begin_offset_ region + size_ region)) (k + 1))
                 = regions_ l).
  { apply UpdateRegionOffsets_loop_chained.
    - intros r' Hr'. replace (k + 1)%nat with (S k) in Hr' by lia.
      apply (Hchain k region r' Hget Hr').
    - intros i r1 r2 _. apply Hchain. }
  destruct (UpdateRegionOffsets_loop _ _ _ _) as [regions' offset'] eqn:Hloop.
  cbn [fst] in Hfix. subst regions'.
  apply UpdateRegionOffsets_loop_spec in Hloop; [|lia].
  destruct Hloop as (_ & _ & _ & _ & _ & Hpast & Hlast).
  pose proof (lookup_lt_Some _ _ _ Hget) as Hk.
  assert (Hdev : AlignToPowerOf2 offset' = Some (device_size_ l)).
  { destruct (decide (k + 1 < length (regions_ l))%nat) as [Hmore|Hend].
    - destruct (Hlast Hmore) as (rl & Hrl & ->). apply Hdevice. exact Hrl.
    - rewrite Hpast by lia. apply (Hdevice region).
      rewrite last_lookup.
      replace (Nat.pred (length (regions_ l))) with k by lia. exact Hget. }
  rewrite Hdev. cbn [mbind outcome_bind]. destruct l; reflexivity.
Qed.

Lemma ResizeRegion_same_size_witness :
  valid_platform host_platform /\
  planned host_platform layout_good_grown /\
  exists region,
    GetRegionByName layout_good_grown name_gralloc_manager = Some region /\
    size_ region = 16384 /\
    ResizeRegion host_platform layout_good_grown name_gralloc_manager 16384
      = Done (true, layout_good_grown).
Proof.
  assert (Hvalid : valid_platform host_platform).
  { split; [cbn; lia|]. exists (2 ^ 20). reflexivity. }
  assert (Hplanned : planned host_platform layout_good_grown).
  { apply (planned_resize _ layout_good name_gralloc_manager 16384).
    - apply (planned_new _ specs_good). vm_compute. reflexivity.
    - vm_compute. reflexivity. }
  split; [exact Hvalid|]. split; [exact Hplanned|].
  eexists. split; [vm_compute; reflexivity|]. split; [reflexivity|].
  apply (ResizeRegion_same_size host_platform layout_good_grown name_gralloc_manager
           (Region name_gralloc_manager 5000 2 2 None 8192 16384) Hvalid Hplanned).
  vm_compute. reflexivity.
Defined.

(** X10: the last resize wins.  After a successful resize of a region, a
    second resize of the same region leads to the layout that the second
    resize alone would have produced from the original layout. *)
Theorem ResizeRegion_last_wins (P : platform) (l l1 : VSoCMemoryLayoutImpl)
    (region_name : c_str) (first_size second_size : Z) :
  ResizeRegion P l region_name first_size = Done (true, l1) ->
  forall l2,
    ResizeRegion P l1 region_name second_size = Done (true, l2) <->
    ResizeRegion P l region_name second_size = Done (true, l2).
Proof.
  intros Hfirst l2.
  destruct (ResizeRegion_frame _ _ _ _ _ Hfirst)
    as (k & region & Hidx & Hregion & Hm & Hlen & Hbelow & Hmine & Habove).
  pose proof (lookup_lt_Some _ _ _ Hregion) as Hk.
  unfold ResizeRegion. rewrite Hm, Hidx, Hmine, Hregion.
  change (GetMinRegionSize P (SetRegionSize region (AlignToPageSize P (wrap32 first_size))))
    with (GetMinRegionSize P region).
  destruct (Z.ltb_spec (AlignToPageSize P (wrap32 second_size))
              (GetMinRegionSize P region)) as [Hlt|Hge].
  { split; intros [=]. }
  cbn [begin_offset_ size_ SetRegionSize].
  set (a2 := AlignToPageSize P (wrap32 second_size)).
  unfold UpdateRegionOffsetsAndDeviceSize. cbn [regions_ region_idx_by_name_].
  rewrite !length_insert, Hlen.
  rewrite (UpdateRegionOffsets_loop_ext (length (regions_ l))
             (<[k := SetRegionSize region a2]> (regions_ l1))
             (<[k := SetRegionSize region a2]> (regions_ l))).
  - reflexivity.
  - rewrite !length_insert. exact Hlen.
  - rewrite length_insert. lia.
  - intros i Hi. destruct (decide (i = k)) as [->|Hne].
    + rewrite !list_lookup_insert_eq by lia. reflexivity.
    + rewrite !list_lookup_insert_ne by lia. apply Hbelow. lia.
  - intros i a Hi Ha. rewrite list_lookup_insert_ne in Ha by lia.
    rewrite list_lookup_insert_ne by lia.
    destruct (Habove i a ltac:(lia) Ha) as (b & Hb & Hsb).
    exists b. split; [exact Hb|].
    unfold same_but_begin in Hsb. rewrite Hsb. apply SetBeginOffset_twice.
Qed.

Lemma ResizeRegion_last_wins_witness :
  ResizeRegion host_platform layout_good name_gralloc_manager 16384
    = Done (true, layout_good_grown) /\
  ResizeRegion host_platform layout_good_grown name_gralloc_manager 8192
    = Done (true, layout_good).
Proof.
  assert (Hfirst : ResizeRegion host_platform layout_good name_gralloc_manager 16384
                     = Done (true, layout_good_grown)).
  { vm_compute. reflexivity. }
  split; [exact Hfirst|].
  apply (ResizeRegion_last_wins host_platform layout_good layout_good_grown
           name_gralloc_manager 16384 8192 Hfirst layout_good).
  vm_compute. reflexivity.
Defined.


(** * Further properties of the proxy *)

(** ** What [SendAll] and [ShmToSocket] write *)


Lemma ShmToSocket_loop_writes (net : nat -> Z) (received : list Packet) :
  forall socket_sender,
  exists status socket' written,
    ShmToSocket_loop net socket_sender received = Some (status, socket') /\
    sent socket' = sent socket_sender ++ concat written /\
    (length written <= length received)%nat /\
    (forall i w, written !! i = Some w ->
       exists packet, received !! i = Some packet /\ IsEnd packet = false /\
                      w `prefix_of` payload packet) /\
    IsOpen socket' = IsOpen socket_sender /\
    shut_wr socket' = shut_wr socket_sender /\
    (status = Receiving -> length written = length received).
Proof.
  induction received as [|packet rest IH]; intros s.
  - exists Receiving, s, []. cbn. rewrite app_nil_r. repeat split; try lia.
    intros i w Hw. rewrite lookup_nil in Hw. discriminate.
  - cbn [ShmToSocket_loop].
    destruct (IsEnd packet) eqn:Hend.
    { exists Exited, s, []. cbn. rewrite app_nil_r. repeat split; try lia.
      - intros i w Hw. rewrite lookup_nil in Hw. discriminate.
      - discriminate. }
    destruct (SendAll_spec net s packet)
      as (result & s1 & delivered & -> & Hd & Hsent & Hopen & Hshut & _).
    assert (Hfirst : forall i w written',
              (take (Z.to_nat delivered) (payload packet) :: written') !! i = Some w ->
              (forall j w', written' !! j = Some w' ->
                 exists p, rest !! j = Some p /\ IsEnd p = false /\
                           w' `prefix_of` payload p) ->
              exists p, (packet :: rest) !! i = Some p /\ IsEnd p = false /\
                        w `prefix_of` payload p).
    { intros [|i] w written' Hw Hrest; cbn in Hw.
      - injection Hw as <-. exists packet. repeat split; [exact Hend|apply prefix_take].
      - apply (Hrest i w Hw). }
    destruct (Z.ltb_spec result 0) as [Hneg|Hok].
    + exists Exited, s1, [take (Z.to_nat delivered) (payload packet)].
      split; [reflexivity|]. cbn [concat]. rewrite app_nil_r.
      split; [exact Hsent|]. split; [cbn; lia|]. split.
      { intros i w Hw. apply (Hfirst i w [] Hw).
        intros j w' Hw'. rewrite lookup_nil in Hw'. discriminate. }
      split; [exact Hopen|]. split; [exact Hshut|]. discriminate.
    + destruct (IH s1) as (status & s' & written & -> & Hsent' & Hlen & Hpre & Hopen' & Hshut' & Hall).
      exists status, s', (take (Z.to_nat delivered) (payload packet) :: written).
      split; [reflexivity|]. split.
      { rewrite Hsent', Hsent. cbn [concat]. rewrite app_assoc. reflexivity. }
      split; [cbn; lia|]. split.
      { intros i w Hw. apply (Hfirst i w written Hw). exact Hpre. }
      split; [congruence|]. split; [congruence|].
      intros Hst. cbn. rewrite (Hall Hst). reflexivity.
Qed.

(** X12: whatever the socket does, [ShmToSocket] handles a finite run of
    packets to an end, and the bytes it adds to the socket are, packet by
    packet and in the order received, a prefix of the payload of each
    packet it got to; no end-of-stream packet contributes.  It does not
    open or close the socket; the send side is shut down exactly when the
    loop is left, and a loop that is still receiving has been through
    every packet. *)
Theorem ShmToSocket_writes_prefixes (net : nat -> Z) (socket_sender : SharedFD)
    (received : list Packet) :
  exists status socket' written,
    ShmToSocket net socket_sender received = Some (status, socket') /\
    sent socket' = sent socket_sender ++ concat written /\
    (length written <= length received)%nat /\
    (forall i w, written !! i = Some w ->
       exists packet, received !! i = Some packet /\ IsEnd packet = false /\
                      w `prefix_of` payload packet) /\
    IsOpen socket' = IsOpen socket_sender /\
    (status = Exited -> shut_wr socket' = true) /\
    (status = Receiving ->
       shut_wr socket' = shut_wr socket_sender /\ length written = length received).
Proof.
  destruct (ShmToSocket_loop_writes net received socket_sender)
    as (status & s' & written & Hloop & Hsent & Hlen & Hpre & Hopen & Hshut & Hall).
  unfold ShmToSocket. rewrite Hloop.
  destruct status.
  - exists Exited, (Shutdown_WR s'), written.
    split; [reflexivity|]. split; [exact Hsent|]. split; [exact Hlen|].
    split; [exact Hpre|]. split; [exact Hopen|]. split; [reflexivity|discriminate].
  - exists Receiving, s', written.
    split; [reflexivity|]. split; [exact Hsent|]. split; [exact Hlen|].
    split; [exact Hpre|]. split; [exact Hopen|]. split; [discriminate|].
    intros _. split; [exact Hshut|apply Hall; reflexivity].
Qed.

(** X13: on an open socket where every [Send] takes at least one byte,
    [ShmToSocket] delivers: the payloads of data packets are written whole
    and in order, however small the pieces the socket takes; the loop
    keeps receiving while only data packets arrive, and on the first
    end-of-stream packet it is left with the send side shut down and
    nothing of the later packets written. *)
Theorem ShmToSocket_delivers (net : nat -> Z) (socket_sender : SharedFD)
    (data : list Packet) :
  (forall n, 0 < net n) ->
  IsOpen socket_sender = true ->
  Forall (fun packet => IsEnd packet = false) data ->
  (exists socket',
     ShmToSocket net socket_sender data = Some (Receiving, socket') /\
     sent socket' = sent socket_sender ++ concat (payload <$> data) /\
     shut_wr socket' = shut_wr socket_sender) /\
  (forall last_packet rest, IsEnd last_packet = true ->
     exists socket',
       ShmToSocket net socket_sender (data ++ last_packet :: rest)
         = Some (Exited, socket') /\
       sent socket' = sent socket_sender ++ concat (payload <$> data) /\
       shut_wr socket' = true).
Proof.
  intros Hnet Hopen Hdata. split.
  - revert socket_sender Hopen.
    induction Hdata as [|packet data Hpacket Hdata IH]; intros s Hopen.
    + exists s. cbn. rewrite app_nil_r. repeat split.
    + destruct (SendAll_all_positive net s packet Hnet Hopen)
        as (s1 & Hsend & Hsent & Hopen1 & Hshut1).
      destruct (IH s1 Hopen1) as (s' & Hrun & Hsent' & Hshut').
      exists s'. split.
      * unfold ShmToSocket in *. cbn [ShmToSocket_loop].
        rewrite Hpacket, Hsend.
        destruct (Z.ltb_spec (payload_length packet) 0);
          [unfold payload_length in *; lia|].
        exact Hrun.
      * split; [|congruence].
        rewrite Hsent', Hsent. cbn. rewrite app_assoc. reflexivity.
  - intros last_packet rest Hend.
    apply ShmToSocket_forwards; assumption.
Qed.

Lemma ShmToSocket_delivers_witness :
  (forall n, 0 < net_one_byte n) /\
  IsOpen fresh_socket = true /\
  Forall (fun packet => IsEnd packet = false) [packet_ab; packet_cd] /\
  exists socket',
    ShmToSocket net_one_byte fresh_socket ([packet_ab; packet_cd] ++ packet_end :: [packet_ab])
      = Some (Exited, socket') /\
    sent socket' = sent fresh_socket ++ concat (payload <$> [packet_ab; packet_cd]) /\
    shut_wr socket' = true.
Proof.
  assert (Hnet : forall n, 0 < net_one_byte n) by (intros n; reflexivity).
  assert (Hdata : Forall (fun packet => IsEnd packet = false) [packet_ab; packet_cd]).
  { repeat constructor. }
  split; [exact Hnet|]. split; [reflexivity|]. split; [exact Hdata|].
  apply (proj2 (ShmToSocket_delivers net_one_byte fresh_socket [packet_ab; packet_cd]
                  Hnet eq_refl Hdata) packet_end [packet_ab]).
  reflexivity.
Defined.


(** ** The socket-to-channel loop *)

(** What [SocketReceiver::Recv] hands back: a data packet whose payload
    is what was taken from the front of the pending bytes, never more
    than the capacity, and nothing when [Read] failed. *)
Lemma Recv_spec (capacity : Z) (recv : nat -> Z) (socket_ : SocketIn) :
  exists packet socket',
    Recv capacity recv socket_ = (packet, socket') /\
    IsEnd packet = false /\
    pending socket_ = payload packet ++ pending socket' /\
    read_calls socket' = S (read_calls socket_) /\
    payload_length packet
      = Z.max 0 (Z.min (recv (read_calls socket_))
                   (Z.min capacity (Z.of_nat (length (pending socket_))))).
Proof.
  unfold Recv, Read.
  destruct (Z.ltb_spec (recv (read_calls socket_)) 0) as [Herr|Hok].
  - eexists _, _. split; [reflexivity|].
    destruct (Z.ltb_spec (recv (read_calls socket_)) 0); [|lia].
    split; [reflexivity|]. split; [reflexivity|]. split; [reflexivity|].
    rewrite Z.max_l by lia. reflexivity.
  - set (n := Z.to_nat (Z.min (recv (read_calls socket_))
                 (Z.min capacity (Z.of_nat (length (pending socket_)))))).
    destruct (Z.ltb_spec (Z.of_nat n) 0); [lia|].
    eexists _, _. split; [reflexivity|]. cbn [IsEnd payload pending read_calls].
    rewrite Nat2Z.id, take_take, Nat.min_id.
    split; [reflexivity|]. split; [symmetry; apply take_drop|].
    split; [reflexivity|].
    unfold payload_length. cbn [payload]. rewrite length_take. subst n. lia.
Qed.

Lemma empty_data_packet (packet : Packet) :
  IsEnd packet = false -> empty packet = (payload_length packet =? 0).
Proof. intros H. unfold empty. rewrite H. reflexivity. Qed.

Lemma SocketToShm_loop_spec (capacity : Z) (recv : nat -> Z) (shm_ok : nat -> bool)
    (fuel : nat) :
  forall (socket_ : SocketIn) (forwarded : list Packet),
  (length (pending socket_) < fuel)%nat ->
  exists socket' new lost,
    SocketToShm_loop fuel capacity recv shm_ok socket_ forwarded
      = Some (socket', forwarded ++ new) /\
    pending socket_ = concat (payload <$> new) ++ lost ++ pending socket' /\
    Forall (fun packet => IsEnd packet = false /\
                          0 < payload_length packet <= capacity) new /\
    (recv (read_calls socket_) < 0 -> new = []) /\
    (shm_ok (length forwarded) = false -> new = []) /\
    (0 < capacity -> (forall n, 0 < recv n) -> (forall n, shm_ok n = true) ->
     lost = [] /\ pending socket' = []).
Proof.
  induction fuel as [|fuel IH]; intros s forwarded Hfuel; [lia|].
  cbn [SocketToShm_loop].
  destruct (Recv_spec capacity recv s)
    as (packet & s1 & -> & Hdata & Hpending & Hcalls & Hlen).
  rewrite (empty_data_packet packet Hdata).
  destruct (Z.eqb_spec (payload_length packet) 0) as [Hzero|Hnonzero].
  - exists s1, [], []. rewrite app_nil_r. split; [reflexivity|].
    assert (Hnil : payload packet = []).
    { unfold payload_length in Hzero. destruct (payload packet); [reflexivity|].
      cbn in Hzero. lia. }
    rewrite Hnil in Hpending. cbn in Hpending.
    split; [exact Hpending|]. split; [constructor|].
    split; [reflexivity|]. split; [reflexivity|].
    intros Hcap Hrecv Hok. split; [reflexivity|].
    specialize (Hrecv (read_calls s)).
    destruct (pending s) as [|b rest] eqn:Hp.
    + symmetry in Hpending. exact Hpending.
    + cbn [length] in Hlen. lia.
  - assert (Hpos : 0 < payload_length packet <= capacity).
    { unfold payload_length in *. lia. }
    destruct (shm_ok (length forwarded)) eqn:Hsend.
    + destruct (IH s1 (forwarded ++ [packet])) as (s' & new & lost & -> & Hrest & Hall & _ & _ & Hcomplete).
      { rewrite Hpending, length_app in Hfuel. unfold payload_length in Hpos. lia. }
      exists s', (packet :: new), lost. split.
      { rewrite <- app_assoc. reflexivity. }
      split.
      { rewrite Hpending, Hrest. cbn. rewrite <- !app_assoc. reflexivity. }
      split; [constructor; [split; assumption|exact Hall]|].
      split; [intros Herr; lia|]. split; [discriminate|].
      exact Hcomplete.
    + exists s1, [], (payload packet). rewrite app_nil_r. split; [reflexivity|].
      split; [exact Hpending|]. split; [constructor|].
      split; [reflexivity|]. split; [reflexivity|].
      intros _ _ Hok. rewrite Hok in Hsend. discriminate.
Qed.

(** X14: [SocketToShm] always comes to an end on a finite amount of
    pending input.  The packets it passes to the channel are data packets
    with between one byte and [capacity] bytes of payload, and their
    payloads, put together in the order sent, are a prefix of the bytes
    that were pending on the socket.  A [Read] error at the first call, or
    a channel that refuses the first packet, ends the loop with nothing
    forwarded.  With a positive capacity, a socket that yields at least one
    byte per [Read] and a channel that takes every packet, all pending
    bytes are forwarded. *)
Theorem SocketToShm_forwards_in_order (capacity : Z) (recv : nat -> Z)
    (shm_ok : nat -> bool) (socket_receiver : SocketIn) :
  exists socket' forwarded,
    SocketToShm capacity recv shm_ok socket_receiver = Some (socket', forwarded) /\
    Forall (fun packet => IsEnd packet = false /\
                          0 < payload_length packet <= capacity) forwarded /\
    concat (payload <$> forwarded) `prefix_of` pending socket_receiver /\
    (recv (read_calls socket_receiver) < 0 -> forwarded = []) /\
    (shm_ok 0%nat = false -> forwarded = []) /\
    (0 < capacity -> (forall n, 0 < recv n) -> (forall n, shm_ok n = true) ->
     concat (payload <$> forwarded) = pending socket_receiver /\
     pending socket' = []).
Proof.
  unfold SocketToShm.
  destruct (SocketToShm_loop_spec capacity recv shm_ok
              (S (length (pending socket_receiver))) socket_receiver [] ltac:(lia))
    as (s' & new & lost & Hrun & Hpending & Hall & Herr & Hrefused & Hcomplete).
  exists s', new. split; [exact Hrun|]. split; [exact Hall|].
  split; [exists (lost ++ pending s'); exact Hpending|].
  split; [exact Herr|]. split; [exact Hrefused|].
  intros Hcap Hrecv Hok.
  destruct (Hcomplete Hcap Hrecv Hok) as [Hlost Hdone].
  split; [|exact Hdone].
  rewrite Hpending, Hlost, Hdone. cbn. rewrite app_nil_r. reflexivity.
Qed.

Lemma SocketToShm_forwards_in_order_witness :
  SocketToShm 4 recv_three shm_always socket_abcde
    = Some ({| pending := []; read_calls := 3 |},
            [MkPacket false [Byte.x61; Byte.x62; Byte.x63];
             MkPacket false [Byte.x64; Byte.x65]]) /\
  SocketToShm 4 recv_three shm_once socket_abcde
    = Some ({| pending := []; read_calls := 2 |},
            [MkPacket false [Byte.x61; Byte.x62; Byte.x63]]) /\
  exists socket' forwarded,
    SocketToShm 4 recv_three shm_always socket_abcde = Some (socket', forwarded) /\
    concat (payload <$> forwarded) = pending socket_abcde /\
    pending socket' = [].
Proof.
  split; [reflexivity|]. split; [reflexivity|].
  destruct (SocketToShm_forwards_in_order 4 recv_three shm_always socket_abcde)
    as (s' & forwarded & Hrun & _ & _ & _ & _ & Hcomplete).
  exists s', forwarded. split; [exact Hrun|].
  apply Hcomplete; [lia|intros n; reflexivity|intros n; reflexivity].
Defined.


(** ** Which region lists [Plan] accepts *)

Lemma name_addrs_built (P : platform) (specs : list RegionSpec) :
  name_addrs (ValidateAndBuildLayout P <$> specs)
  = (fun s => c_addr (spec_name s)) <$> specs.
Proof.
  unfold name_addrs. rewrite <- list_fmap_compose. reflexivity.
Qed.

Lemma Plan_not_fatal_iff (P : platform) (specs : list RegionSpec) :
  Plan P specs <> Stop LogFatal <-> acceptable specs.
Proof.
  unfold Plan, acceptable.
  rewrite new_VSoCMemoryLayoutImpl_fatal_iff, name_addrs_built.
  split; intros [Hnodup Hmgr]; (split; [exact Hnodup|]).
  - intros s manager Hs Hm.
    specialize (Hmgr (ValidateAndBuildLayout P s) manager).
    apply list_elem_of_fmap in Hmgr.
    + destruct Hmgr as (s' & Haddr & Hs'). exists s'. split; [exact Hs'|congruence].
    + apply list_elem_of_fmap. exists s. split; [reflexivity|exact Hs].
    + exact Hm.
  - intros r manager Hr Hm.
    apply list_elem_of_fmap in Hr. destruct Hr as (s & -> & Hs).
    destruct (Hmgr s manager Hs Hm) as (s' & Hs' & Haddr).
    apply list_elem_of_fmap. exists s'. split; [congruence|exact Hs'].
Qed.

Lemma acceptable_Permutation (specs specs' : list RegionSpec) :
  specs ≡ₚ specs' -> acceptable specs -> acceptable specs'.
Proof.
  intros Hperm [Hnodup Hmgr]. split.
  - rewrite <- Hperm. exact Hnodup.
  - intros s manager Hs Hm. rewrite <- Hperm in Hs.
    destruct (Hmgr s manager Hs Hm) as (s' & Hs' & Haddr).
    exists s'. split; [rewrite <- Hperm; exact Hs'|exact Haddr].
Qed.

Lemma Plan_fatal_iff (P : platform) (specs : list RegionSpec) :
  Plan P specs = Stop LogFatal <-> ~ acceptable specs.
Proof.
  rewrite <- Plan_not_fatal_iff. split; [intros H Hne; exact (Hne H)|].
  intros Hnn. destruct (Plan P specs) as [l|[]]; try reflexivity;
    exfalso; apply Hnn; discriminate.
Qed.

(** X15: [Plan] aborts with a fatal configuration error exactly when
    two regions share a name, or some [managed_by] is the name of no
    region of the list.  Nothing else matters to the check: a list and any
    reordering of it are accepted or refused alike. *)
Theorem Plan_accepts_by_names_only (P : platform) (specs : list RegionSpec) :
  (Plan P specs = Stop LogFatal <->
   ~ (NoDup ((fun s => c_addr (spec_name s)) <$> specs) /\
      forall s manager, s ∈ specs -> spec_managed_by s = Some manager ->
        exists s', s' ∈ specs /\ c_addr (spec_name s') = c_addr manager)) /\
  (forall specs', specs ≡ₚ specs' ->
     (Plan P specs = Stop LogFatal <-> Plan P specs' = Stop LogFatal)).
Proof.
  split; [apply Plan_fatal_iff|].
  intros specs' Hperm. rewrite !Plan_fatal_iff.
  split; intros Hnot Hacc; apply Hnot.
  - apply (acceptable_Permutation specs' specs); [symmetry; exact Hperm|exact Hacc].
  - apply (acceptable_Permutation specs specs'); [exact Hperm|exact Hacc].
Qed.

Lemma Plan_accepts_by_names_only_witness :
  specs_good ≡ₚ specs_manager_later /\
  Plan host_platform specs_good <> Stop LogFatal /\
  Plan host_platform specs_manager_later <> Stop LogFatal.
Proof.
  assert (Hperm : specs_good ≡ₚ specs_manager_later).
  { unfold specs_good, specs_manager_later. apply perm_skip. apply perm_swap. }
  assert (Hgood : Plan host_platform specs_good <> Stop LogFatal).
  { vm_compute. discriminate. }
  split; [exact Hperm|]. split; [exact Hgood|].
  intros Hfatal. apply Hgood.
  apply (proj2 (Plan_accepts_by_names_only host_platform specs_good)
           specs_manager_later Hperm).
  exact Hfatal.
Defined.
